(** * network_lib: TCP sockets (tcp.c) and the network event bus (event.c)

    A shallow embedding of [src/network/tcp.c] and [src/network/event.c].
    The C code works on a global table of socket base records
    ([_socket_base]), on heap-allocated [socket_t] objects reached through
    pointers, and on the operating system.  The embedding threads an explicit
    [world] through a state-and-fault monad:

    - the base table is a list indexed by [sock->base];
    - socket objects live in a finite map from addresses to records;
    - every call that leaves the library (a system call, the allocator) is
      appended to a trace, and its answer is taken from an arbitrary
      environment function of the trace so far, so that theorems quantify over
      every behaviour of the operating system;
    - a dereference of an invalid pointer or an access outside the table is a
      [fault] (undefined behaviour in C).

    The build modelled is the POSIX one with [BUILD_ENABLE_LOG] set. *)

From Stdlib Require Import ZArith String List Lia Strings.Byte.
From stdpp Require Import base option list gmap strings.

Local Open Scope Z_scope.

(* ===================================================================== *)
(** * TCP sockets *)
(* ===================================================================== *)

Module Tcp.

(** ** Data model *)

(** Declared in network/types.h, which is not part of the sources at hand;
    the constructors follow the names used by tcp.c. *)
Inductive network_address_family_t :=
| NETWORK_ADDRESSFAMILY_IPV4
| NETWORK_ADDRESSFAMILY_IPV6.

(** The fields tcp.c reads through [network_address_t*] and
    [network_address_ip_t*]: [family], [address_size] and the raw [saddr]. *)
Record network_address_t := {
  family : network_address_family_t;
  address_size : Z;
  saddr : list byte
}.

Inductive socket_state_t :=
| SOCKETSTATE_NOTCONNECTED
| SOCKETSTATE_CONNECTING
| SOCKETSTATE_CONNECTED
| SOCKETSTATE_LISTENING
| SOCKETSTATE_DISCONNECTED.

#[global] Instance socket_state_eq_dec : EqDecision socket_state_t.
Proof. solve_decision. Defined.

(** The two function pointers of a socket only ever hold the functions of one
    protocol; a tag stands for the address of the function. *)
Inductive socket_open_fn := fn_tcp_socket_open | fn_udp_socket_open.
Inductive socket_stream_initialize_fn :=
| fn_tcp_stream_initialize
| fn_udp_stream_initialize.

(** [socket_t]: [None] is the null pointer. *)
Record socket_t := {
  base : Z;
  address_local : option network_address_t;
  address_remote : option network_address_t;
  open_fn : option socket_open_fn;
  stream_initialize_fn : option socket_stream_initialize_fn
}.

(** [socket_base_t], one slot of the [_socket_base] table.  [object] is the
    address of the socket the slot is linked to, 0 for a free slot. *)
Record socket_base_t := {
  object : Z;
  fd : Z;
  state : socket_state_t;
  flags : Z;
  last_event : Z;
  read_offset : Z;
  read_length : Z;
  write_length : Z
}.

Definition NULL : Z := 0.

(** Constants of network/internal.h, which is not part of the sources at
    hand: the invalid descriptor is the negative value tcp.c tests for, and
    the flag bits are numbered in the order the data model lists the flags
    (Blocking, TcpDelay, ...).  The others come from the system headers
    (POSIX, Linux values). *)
Definition SOCKET_INVALID : Z := -1.
Definition SOCKETFLAG_BLOCKING : Z := 1.
Definition SOCKETFLAG_TCPDELAY : Z := 2.
Definition SOMAXCONN : Z := 128.
Definition EAGAIN : Z := 11.
Definition AF_INET : Z := 2.
Definition AF_INET6 : Z := 10.
Definition SOCK_STREAM : Z := 1.
Definition IPPROTO_TCP : Z := 6.
Definition TCP_NODELAY : Z := 1.

(** ** The outside world *)

(** Calls that leave the library, with the arguments the code passes. *)
Inductive call :=
| sys_listen (sockfd backlog : Z)
| sys_accept (sockfd addrlen : Z)
| sys_select (nfds : Z) (readfds exceptfds : list Z) (tv_sec tv_usec : Z)
| sys_setsockopt (sockfd level optname optval : Z)
| sys_socket (domain type protocol : Z)
| sys_close (sockfd : Z)
| sys_getsockname (sockfd : Z)
| sys_set_blocking (sockfd : Z) (block : bool)
| call_memory_allocate.

(** The answer to a call: the return value, the error code left behind
    ([NETWORK_SOCKET_ERROR]) and, for calls that fill in an address, the
    bytes and the length written. *)
Record reply := {
  ret : Z;
  err : Z;
  out_saddr : list byte;
  out_len : Z
}.

Inductive log_level := LOG_DEBUG | LOG_INFO | LOG_WARNING | LOG_ERROR.

Record log_entry := {
  level : log_level;
  message : string
}.

Record world := {
  _socket_base : list socket_base_t;
  heap : gmap Z socket_t;
  trace : list call;
  log : list log_entry;
  env : list call → call → reply
}.

Inductive fault := InvalidPointer | OutOfBounds.

(** ** State-and-fault monad *)

Definition M (A : Type) : Type := world → fault + (A * world).

#[global] Instance M_ret : MRet M := λ A a w, inr (a, w).
#[global] Instance M_bind : MBind M := λ A B k m w,
  match m w with
  | inl e => inl e
  | inr (a, w') => k a w'
  end.

Definition raise {A} (e : fault) : M A := λ _, inl e.
Definition gets {A} (f : world → A) : M A := λ w, inr (f w, w).
Definition modify (f : world → world) : M unit := λ w, inr (tt, f w).

Definition set_table (t : list socket_base_t) (w : world) : world :=
  {| _socket_base := t; heap := heap w; trace := trace w; log := log w;
     env := env w |}.
Definition set_heap (h : gmap Z socket_t) (w : world) : world :=
  {| _socket_base := _socket_base w; heap := h; trace := trace w;
     log := log w; env := env w |}.
Definition set_trace (t : list call) (w : world) : world :=
  {| _socket_base := _socket_base w; heap := heap w; trace := t;
     log := log w; env := env w |}.
Definition set_log (l : list log_entry) (w : world) : world :=
  {| _socket_base := _socket_base w; heap := heap w; trace := trace w;
     log := l; env := env w |}.

(** A call is answered by the environment from the calls made so far and
    recorded. *)
Definition syscall (c : call) : M reply := λ w,
  inr (env w (trace w) c, set_trace (trace w ++ [c]) w).

Definition log_msg (l : log_level) (msg : string) : M unit := λ w,
  inr (tt, set_log (log w ++ [{| level := l; message := msg |}]) w).

Definition log_debugf := log_msg LOG_DEBUG.
Definition log_infof := log_msg LOG_INFO.
Definition log_errorf := log_msg LOG_ERROR.

(** [*sock] *)
Definition load_socket (sock : Z) : M socket_t := λ w,
  match heap w !! sock with
  | Some s => inr (s, w)
  | None => inl InvalidPointer
  end.

Definition store_socket (sock : Z) (s : socket_t) : M unit := λ w,
  match heap w !! sock with
  | Some _ => inr (tt, set_heap (<[sock := s]> (heap w)) w)
  | None => inl InvalidPointer
  end.

(** [_socket_base[i]] *)
Definition load_base (i : Z) : M socket_base_t := λ w,
  if i <? 0 then inl OutOfBounds
  else match _socket_base w !! Z.to_nat i with
       | Some b => inr (b, w)
       | None => inl OutOfBounds
       end.

Definition store_base (i : Z) (b : socket_base_t) : M unit := λ w,
  if i <? 0 then inl OutOfBounds
  else match _socket_base w !! Z.to_nat i with
       | Some _ => inr (tt, set_table (<[Z.to_nat i := b]> (_socket_base w)) w)
       | None => inl OutOfBounds
       end.

Definition modify_base (i : Z) (f : socket_base_t → socket_base_t) : M unit :=
  b ← load_base i; store_base i (f b).

Definition modify_socket (sock : Z) (f : socket_t → socket_t) : M unit :=
  s ← load_socket sock; store_socket sock (f s).

(** Field assignments. *)
Definition set_fd (v : Z) (b : socket_base_t) : socket_base_t :=
  {| object := object b; fd := v; state := state b; flags := flags b;
     last_event := last_event b; read_offset := read_offset b;
     read_length := read_length b; write_length := write_length b |}.
Definition set_state (v : socket_state_t) (b : socket_base_t) : socket_base_t :=
  {| object := object b; fd := fd b; state := v; flags := flags b;
     last_event := last_event b; read_offset := read_offset b;
     read_length := read_length b; write_length := write_length b |}.
Definition set_flags (v : Z) (b : socket_base_t) : socket_base_t :=
  {| object := object b; fd := fd b; state := state b; flags := v;
     last_event := last_event b; read_offset := read_offset b;
     read_length := read_length b; write_length := write_length b |}.

Definition set_base (v : Z) (s : socket_t) : socket_t :=
  {| base := v; address_local := address_local s;
     address_remote := address_remote s; open_fn := open_fn s;
     stream_initialize_fn := stream_initialize_fn s |}.
Definition set_address_local (v : option network_address_t) (s : socket_t)
  : socket_t :=
  {| base := base s; address_local := v;
     address_remote := address_remote s; open_fn := open_fn s;
     stream_initialize_fn := stream_initialize_fn s |}.
Definition set_address_remote (v : option network_address_t) (s : socket_t)
  : socket_t :=
  {| base := base s; address_local := address_local s;
     address_remote := v; open_fn := open_fn s;
     stream_initialize_fn := stream_initialize_fn s |}.
Definition set_open_fn (v : option socket_open_fn) (s : socket_t) : socket_t :=
  {| base := base s; address_local := address_local s;
     address_remote := address_remote s; open_fn := v;
     stream_initialize_fn := stream_initialize_fn s |}.
Definition set_stream_initialize_fn (v : option socket_stream_initialize_fn)
  (s : socket_t) : socket_t :=
  {| base := base s; address_local := address_local s;
     address_remote := address_remote s; open_fn := open_fn s;
     stream_initialize_fn := v |}.

(** [(flags & mask) != 0] *)
Definition flag_set (fl mask : Z) : bool := negb (Z.land fl mask =? 0).

(** ** Collaborators of tcp.c that live in socket.c and address.c *)

(** A [socket_t] of zero bytes. *)
Definition zero_socket : socket_t :=
  {| base := 0; address_local := None; address_remote := None;
     open_fn := None; stream_initialize_fn := None |}.

(** [memory_allocate(HASH_NETWORK, sizeof(socket_t), 0, MEMORY_PERSISTENT |
    MEMORY_ZERO_INITIALIZED)]: the allocator of the foundation library.  It
    either has no memory (null) or hands out an address that is not in use,
    holding a zeroed [socket_t]. *)
Definition memory_allocate : M Z :=
  r ← syscall call_memory_allocate;
  if ret r =? 0 then mret NULL
  else
    h ← gets heap;
    let p := fresh ({[NULL]} ∪ dom h) in
    modify (set_heap (<[p := zero_socket]> h));;
    mret p.

(** Modelled from the spec: [_socket_initialize] of socket.c is missing; the
    data model gives a socket without a base slot the base index -1. *)
Definition _socket_initialize (sock : Z) : M unit :=
  modify_socket sock (set_base (-1)).

(** A [socket_base_t] of zero bytes, linked to no socket. *)
Definition zero_base : socket_base_t :=
  {| object := 0; fd := 0; state := SOCKETSTATE_NOTCONNECTED; flags := 0;
     last_event := 0; read_offset := 0; read_length := 0; write_length := 0 |}.

Definition set_object (v : Z) (b : socket_base_t) : socket_base_t :=
  {| object := v; fd := fd b; state := state b; flags := flags b;
     last_event := last_event b; read_offset := read_offset b;
     read_length := read_length b; write_length := write_length b |}.

(** Modelled from the spec: [_socket_allocate_base] of socket.c is missing.
    "Returns a free base slot, zero-initializes it, links it to sock, returns
    its index, or fails with OutOfSlots."  The free slot taken is the first
    one; failure is the negative index tcp.c tests for. *)
Definition _socket_allocate_base (sock : Z) : M Z :=
  s ← load_socket sock;
  t ← gets _socket_base;
  match list_find (λ b, object b = NULL) t with
  | None => mret (-1)
  | Some (i, _) =>
      modify (set_table (<[i := set_object sock zero_base]> t));;
      store_socket sock (set_base (Z.of_nat i) s);;
      mret (Z.of_nat i)
  end.

(** Modelled from the spec: [_socket_close_fd] of socket.c is missing; it
    closes the descriptor. *)
Definition _socket_close_fd (d : Z) : M unit :=
  _ ← syscall (sys_close d); mret tt.

(** Modelled from the spec: [_socket_free_base] of socket.c is missing.
    "free_base(index): closes fd if valid, returns the slot." *)
Definition _socket_free_base (i : Z) : M unit :=
  b ← load_base i;
  (if fd b =? SOCKET_INVALID then mret tt else _socket_close_fd (fd b));;
  store_base i (set_object NULL b).

(** Modelled from the spec: [socket_deallocate] of socket.c is missing.
    "Socket records are destroyed on free; their base slot is returned to a
    free list." *)
Definition socket_deallocate (sock : Z) : M unit :=
  s ← load_socket sock;
  (if base s <? 0 then mret tt else _socket_free_base (base s));;
  h ← gets heap;
  modify (set_heap (delete sock h)).

(** Modelled from the spec: [socket_set_blocking] of socket.c is missing.
    "set_blocking(true|false) updates the Blocking flag and toggles the OS
    non-blocking flag." *)
Definition socket_set_blocking (sock : Z) (block : bool) : M unit :=
  s ← load_socket sock;
  if base s <? 0 then mret tt
  else
    b ← load_base (base s);
    store_base (base s)
      (set_flags (if block then Z.lor (flags b) SOCKETFLAG_BLOCKING
                  else Z.land (flags b) (Z.lnot SOCKETFLAG_BLOCKING)) b);;
    if fd b =? SOCKET_INVALID then mret tt
    else _ ← syscall (sys_set_blocking (fd b) block); mret tt.

(** Modelled from the spec: [socket_blocking] of socket.c is missing; the
    observable blocking mode is the Blocking flag of the base record. *)
Definition socket_blocking (sock : Z) (w : world) : bool :=
  match heap w !! sock with
  | Some s =>
      if base s <? 0 then false
      else match _socket_base w !! Z.to_nat (base s) with
           | Some b => flag_set (flags b) SOCKETFLAG_BLOCKING
           | None => false
           end
  | None => false
  end.

(** Modelled from the spec: [_socket_store_address_local] of socket.c is
    missing; "address_local derived from getsockname on the new fd". *)
Definition _socket_store_address_local (sock : Z)
  (fam : network_address_family_t) : M unit :=
  s ← load_socket sock;
  if base s <? 0 then mret tt
  else
    b ← load_base (base s);
    r ← syscall (sys_getsockname (fd b));
    modify_socket sock
      (set_address_local
         (Some {| family := fam; address_size := out_len r;
                  saddr := out_saddr r |})).

(** Modelled from the spec: [network_address_clone] of address.c is missing;
    "cloning produces an independent copy".  Addresses are values here. *)
Definition network_address_clone (a : network_address_t) : network_address_t := a.

(** [accept(fd, &address_ip->saddr, &address_len)]: the descriptor returned,
    the error code, and the address buffer, which the system fills in when it
    returns a connection. *)
Definition accept (d : Z) (a : network_address_t)
  : M (Z * Z * network_address_t) :=
  r ← syscall (sys_accept d (address_size a));
  mret (ret r, err r,
        if ret r <? 0 then a
        else {| family := family a; address_size := address_size a;
                saddr := out_saddr r |}).

(** [!p] for a nullable pointer held as an option. *)
Definition is_null {A} (p : option A) : bool :=
  match p with None => true | Some _ => false end.

(** ** tcp.c *)

Definition tcp_socket_initialize (sock : Z) : M unit :=
  _socket_initialize sock;;
  modify_socket sock (set_open_fn (Some fn_tcp_socket_open));;
  modify_socket sock (set_stream_initialize_fn (Some fn_tcp_stream_initialize)).

Definition tcp_socket_allocate : M Z :=
  sock ← memory_allocate;
  tcp_socket_initialize sock;;
  mret sock.

Definition tcp_socket_listen (sock : Z) : M bool :=
  s ← load_socket sock;
  if base s <? 0 then mret false
  else
    sockbase ← load_base (base s);
    if bool_decide (state sockbase ≠ SOCKETSTATE_NOTCONNECTED)
       || (fd sockbase =? SOCKET_INVALID)
       || is_null (address_local s)
    then mret false
    else
      r ← syscall (sys_listen (fd sockbase) SOMAXCONN);
      if ret r =? 0 then
        log_infof "Listening on TCP/IP socket";;
        modify_base (base s) (set_state SOCKETSTATE_LISTENING);;
        mret true
      else
        log_errorf "Unable to listen on TCP/IP socket";;
        mret false.

(** tcp.c lines 126-155: the [accept] call and, under a timeout, the wait
    with [select] and the second [accept].  [i] is the slot [sockbase] points
    to; the result is the local [fd] and the address buffer. *)
Definition accept_wait (i : Z) (address_remote : network_address_t)
  (timeoutms : Z) : M (Z * network_address_t) :=
  sockbase ← load_base i;
  '(d, e, address_remote) ← accept (fd sockbase) address_remote;
  if d <? 0 then
    if 0 <? timeoutms then
      if e =? EAGAIN then
        r ← syscall (sys_select (fd sockbase + 1) [fd sockbase] [fd sockbase]
                       (timeoutms / 1000) ((timeoutms mod 1000) * 1000));
        if 0 <? ret r then
          '(d, _, address_remote) ← accept (fd sockbase) address_remote;
          mret (d, address_remote)
        else mret (d, address_remote)
      else mret (d, address_remote)
    else mret (d, address_remote)
  else mret (d, address_remote).

(** tcp.c lines 160-205: from the descriptor to the accepted socket. *)
Definition accept_finish (d : Z) (address_remote : network_address_t) : M Z :=
  if d <? 0 then
    log_debugf "Accept returned invalid socket fd";;
    mret NULL
  else
    accepted ← tcp_socket_allocate;
    if accepted =? NULL then
      log_debugf "Unable to allocate socket for accepted fd";;
      _socket_close_fd d;;
      mret NULL
    else
      r ← _socket_allocate_base accepted;
      if r <? 0 then
        log_debugf "Unable to allocate socket base for accepted fd";;
        socket_deallocate accepted;;
        mret NULL
      else
        acc ← load_socket accepted;
        modify_base (base acc) (set_fd d);;
        modify_base (base acc) (set_state SOCKETSTATE_CONNECTED);;
        modify_socket accepted (set_address_remote (Some address_remote));;
        _socket_store_address_local accepted (family address_remote);;
        log_infof "Accepted connection on TCP/IP socket";;
        mret accepted.

Definition tcp_socket_accept (sock : Z) (timeoutms : Z) : M Z :=
  s ← load_socket sock;
  if base s <? 0 then mret NULL
  else
    sockbase ← load_base (base s);
    if bool_decide (state sockbase ≠ SOCKETSTATE_LISTENING)
       || (fd sockbase =? SOCKET_INVALID)
       || is_null (address_local s)
    then
      log_errorf "Unable to accept on a non-listening/unbound TCP/IP socket";;
      mret NULL
    else
      let blocking := flag_set (flags sockbase) SOCKETFLAG_BLOCKING in
      (if (0 <? timeoutms) && blocking then socket_set_blocking sock false
       else mret tt);;
      s' ← load_socket sock;
      match address_local s' with
      | None => raise InvalidPointer (* address_remote->address_size *)
      | Some a =>
          '(d, address_remote) ←
            accept_wait (base s) (network_address_clone a) timeoutms;
          (if (0 <? timeoutms) && blocking then socket_set_blocking sock true
           else mret tt);;
          accept_finish d address_remote
      end.

Definition tcp_socket_delay (sock : Z) : M bool :=
  s ← load_socket sock;
  if 0 <=? base s then
    sockbase ← load_base (base s);
    mret (flag_set (flags sockbase) SOCKETFLAG_TCPDELAY)
  else mret false.

Definition tcp_socket_set_delay (sock : Z) (delay : bool) : M unit :=
  s ← load_socket sock;
  if base s <? 0 then mret tt
  else
    sockbase ← load_base (base s);
    store_base (base s)
      (set_flags (if delay then Z.lor (flags sockbase) SOCKETFLAG_TCPDELAY
                  else Z.land (flags sockbase) (Z.lnot SOCKETFLAG_TCPDELAY))
         sockbase);;
    let flag := if delay then 0 else 1 in
    if fd sockbase =? SOCKET_INVALID then mret tt
    else
      _ ← syscall (sys_setsockopt (fd sockbase) IPPROTO_TCP TCP_NODELAY flag);
      mret tt.

Definition _tcp_socket_open (sock : Z) (fam : network_address_family_t)
  : M unit :=
  s ← load_socket sock;
  if base s <? 0 then mret tt
  else
    r ← syscall (match fam with
                 | NETWORK_ADDRESSFAMILY_IPV6 =>
                     sys_socket AF_INET6 SOCK_STREAM IPPROTO_TCP
                 | _ => sys_socket AF_INET SOCK_STREAM IPPROTO_TCP
                 end);
    modify_base (base s) (set_fd (ret r));;
    sockbase ← load_base (base s);
    if fd sockbase <? 0 then
      log_errorf "Unable to open TCP/IP socket";;
      modify_base (base s) (set_fd SOCKET_INVALID)
    else
      log_debugf "Opened TCP/IP socket";;
      tcp_socket_set_delay sock (flag_set (flags sockbase) SOCKETFLAG_TCPDELAY).

(** The fields of the foundation [stream_t] that tcp.c assigns. *)
Record stream_t := {
  inorder : bool;
  reliable : bool;
  sequential : bool;
  path : string
}.

Section StreamInitialize.

(** The text the conversion [PRIfixPTR] prints for a pointer; the macro
    belongs to the foundation headers. *)
Variable format_fixptr : Z → string.

(** [string_allocate_format] applied to the format tcp:// followed by
    [PRIfixPTR], and to [sock]. *)
Definition string_allocate_format_tcp (sock : Z) : string :=
  ("tcp://" ++ format_fixptr sock)%string.

Definition _tcp_stream_initialize (sock : Z) (stream : stream_t) : stream_t :=
  {| inorder := true;
     reliable := true;
     sequential := sequential stream;
     path := string_allocate_format_tcp sock |}.

End StreamInitialize.

(** ** Observations used by the statements *)

(** The base record [sock->base] designates, when there is one. *)
Definition sockbase_of (sock : Z) (w : world) : option socket_base_t :=
  s ← heap w !! sock;
  if base s <? 0 then None else _socket_base w !! Z.to_nat (base s).

(** [sock] points to a socket whose base index is a slot of the table. *)
Definition has_base_slot (sock : Z) (w : world) (s : socket_t)
  (b : socket_base_t) : Prop :=
  heap w !! sock = Some s ∧ 0 ≤ base s ∧
  _socket_base w !! Z.to_nat (base s) = Some b.

(** The flags word [tcp_socket_set_delay] stores. *)
Definition delay_flags (f : Z) (delay : bool) : Z :=
  if delay then Z.lor f SOCKETFLAG_TCPDELAY
  else Z.land f (Z.lnot SOCKETFLAG_TCPDELAY).

(** The [socket] call [_tcp_socket_open] makes for an address family. *)
Definition open_call (fam : network_address_family_t) : call :=
  match fam with
  | NETWORK_ADDRESSFAMILY_IPV6 => sys_socket AF_INET6 SOCK_STREAM IPPROTO_TCP
  | NETWORK_ADDRESSFAMILY_IPV4 => sys_socket AF_INET SOCK_STREAM IPPROTO_TCP
  end.

(** The flags word [socket_set_blocking] stores. *)
Definition blocking_flags (f : Z) (block : bool) : Z :=
  if block then Z.lor f SOCKETFLAG_BLOCKING
  else Z.land f (Z.lnot SOCKETFLAG_BLOCKING).

(** The system calls of one bounded accept, in the words of the description:
    call [accept]; if it fails with the would-block error and a timeout was
    given, wait with [select] on the listening descriptor for up to
    [timeoutms]; if [select] reports the descriptor, call [accept] once
    more.  [e] answers the calls and [tr] is the trace before the first. *)
Definition accept_wait_calls (e : list call → call → reply) (tr : list call)
  (lfd len timeoutms : Z) : list call :=
  let acc := sys_accept lfd len in
  let sel := sys_select (lfd + 1) [lfd] [lfd]
               (timeoutms / 1000) ((timeoutms mod 1000) * 1000) in
  if (ret (e tr acc) <? 0) && (0 <? timeoutms) && (err (e tr acc) =? EAGAIN)
  then
    if 0 <? ret (e (tr ++ [acc]) sel) then [acc; sel; acc] else [acc; sel]
  else [acc].

(** The system calls of tcp.c lines 117-158: around the bounded accept, a
    blocking socket given a timeout is switched to non-blocking and back. *)
Definition accept_calls (e : list call → call → reply) (tr : list call)
  (lfd len timeoutms : Z) (blocking : bool) : list call :=
  if (0 <? timeoutms) && blocking then
    [sys_set_blocking lfd false] ++
    accept_wait_calls e (tr ++ [sys_set_blocking lfd false]) lfd len timeoutms ++
    [sys_set_blocking lfd true]
  else accept_wait_calls e tr lfd len timeoutms.

(** [sock] is a listening socket with a base slot: what [tcp_socket_accept]
    requires on entry. *)
Definition listening (sock : Z) (w : world) (s : socket_t) (b : socket_base_t)
  (a : network_address_t) : Prop :=
  has_base_slot sock w s b ∧
  state b = SOCKETSTATE_LISTENING ∧
  fd b ≠ SOCKET_INVALID ∧
  address_local s = Some a.

(** The socket object [tcp_socket_allocate] hands out. *)
Definition new_tcp_socket : socket_t :=
  {| base := -1; address_local := None; address_remote := None;
     open_fn := Some fn_tcp_socket_open;
     stream_initialize_fn := Some fn_tcp_stream_initialize |}.

(** The address the allocator gives the next socket object. *)
Definition next_socket (w : world) : Z := fresh ({[NULL]} ∪ dom (heap w)).

(** A slot of the table is free when it is linked to no socket. *)
Definition free_slot (t : list socket_base_t) : option (nat * socket_base_t) :=
  list_find (λ b, object b = NULL) t.

(** The base record and the socket object of a connection accepted on
    descriptor [d] with peer address [peer], for the socket at [p], the slot
    [j] and the answer [g] of [getsockname]. *)
Definition accepted_base (p d : Z) : socket_base_t :=
  {| object := p; fd := d; state := SOCKETSTATE_CONNECTED; flags := 0;
     last_event := 0; read_offset := 0; read_length := 0; write_length := 0 |}.

Definition accepted_socket (j : nat) (peer : network_address_t) (g : reply)
  : socket_t :=
  {| base := Z.of_nat j;
     address_local := Some {| family := family peer; address_size := out_len g;
                              saddr := out_saddr g |};
     address_remote := Some peer;
     open_fn := Some fn_tcp_socket_open;
     stream_initialize_fn := Some fn_tcp_stream_initialize |}.

Definition log_debug (msg : string) : log_entry :=
  {| level := LOG_DEBUG; message := msg |}.
Definition log_info (msg : string) : log_entry :=
  {| level := LOG_INFO; message := msg |}.
Definition log_error (msg : string) : log_entry :=
  {| level := LOG_ERROR; message := msg |}.

(** [p] is a socket accepted from the listening descriptor [lfd] bound to
    [a], between the worlds [w] and [w']: it did not exist in [w]; it is a TCP
    socket; its base record is Connected and holds the descriptor some
    [accept] call on [lfd] returned after [w]; its remote address is the
    address that call wrote; its local address is what [getsockname] answered
    for that descriptor. *)
Definition accepted_from (w w' : world) (lfd : Z) (a : network_address_t)
  (p : Z) : Prop :=
  ∃ (acc : socket_t) (accbase : socket_base_t) (pre post pre_g : list call),
    let r := env w pre (sys_accept lfd (address_size a)) in
    let g := env w pre_g (sys_getsockname (ret r)) in
    p ≠ NULL ∧
    heap w !! p = None ∧
    heap w' !! p = Some acc ∧
    open_fn acc = Some fn_tcp_socket_open ∧
    stream_initialize_fn acc = Some fn_tcp_stream_initialize ∧
    sockbase_of p w' = Some accbase ∧
    object accbase = p ∧
    state accbase = SOCKETSTATE_CONNECTED ∧
    trace w' = pre ++ [sys_accept lfd (address_size a)] ++ post ∧
    trace w `prefix_of` pre ∧
    0 ≤ ret r ∧
    fd accbase = ret r ∧
    address_remote acc =
      Some {| family := family a; address_size := address_size a;
              saddr := out_saddr r |} ∧
    trace w' = pre_g ++ [sys_getsockname (ret r)] ∧
    address_local acc =
      Some {| family := family a; address_size := out_len g;
              saddr := out_saddr g |}.

(** The contract of [tcp_socket_accept] on a listening socket. *)
Definition accept_contract (w : world) (sock : Z) (b : socket_base_t)
  (a : network_address_t) (timeoutms : Z) : Prop :=
  (∀ p w',
      tcp_socket_accept sock timeoutms w = inr (p, w') → p ≠ NULL →
      accepted_from w w' (fd b) a p ∧
      (∀ q, q ≠ p → heap w' !! q = heap w !! q)) ∧
  (∀ w',
      tcp_socket_accept sock timeoutms w = inr (NULL, w') →
      heap w' = heap w ∧ _socket_base w' = _socket_base w) ∧
  (ret (env w
          (trace w ++ accept_calls (env w) (trace w) (fd b) (address_size a)
                        timeoutms (flag_set (flags b) SOCKETFLAG_BLOCKING))
          call_memory_allocate) ≠ 0 →
   ∃ p w', tcp_socket_accept sock timeoutms w = inr (p, w')).

(** What [tcp_socket_listen] requires on entry. *)
Definition listen_precondition (sock : Z) (w : world) : Prop :=
  ∃ s b, has_base_slot sock w s b ∧
         state b = SOCKETSTATE_NOTCONNECTED ∧
         fd b ≠ SOCKET_INVALID ∧
         address_local s ≠ None.

(** The world a computation ends in; the starting one when it faults. *)
Definition run_world {A} (m : M A) (w : world) : world :=
  match m w with
  | inr (_, w') => w'
  | inl _ => w
  end.

(** The two readings the statements below are measured against. *)

(** "On WouldBlock waits with select, retries accept once": after the wait the
    second [accept] is always made. *)
Definition accept_always_retries : Prop :=
  ∀ w sock s b a timeoutms r w',
    listening sock w s b a →
    0 < timeoutms →
    flag_set (flags b) SOCKETFLAG_BLOCKING = true →
    let acc := sys_accept (fd b) (address_size a) in
    let off := sys_set_blocking (fd b) false in
    let sel := sys_select (fd b + 1) [fd b] [fd b]
                 (timeoutms / 1000) ((timeoutms mod 1000) * 1000) in
    ret (env w (trace w ++ [off]) acc) < 0 →
    err (env w (trace w ++ [off]) acc) = EAGAIN →
    tcp_socket_accept sock timeoutms w = inr (r, w') →
    ∃ rest,
      trace w' = trace w ++
                 [off; acc; sel; acc; sys_set_blocking (fd b) true] ++ rest.

(** "Accept on a non-listening socket returns null and logs", for every
    socket object. *)
Definition accept_always_logs_rejection : Prop :=
  ∀ w sock s timeoutms,
    heap w !! sock = Some s →
    state <$> sockbase_of sock w ≠ Some SOCKETSTATE_LISTENING
    ∨ fd <$> sockbase_of sock w = Some SOCKET_INVALID
    ∨ address_local s = None →
    ∃ w' e,
      tcp_socket_accept sock timeoutms w = inr (NULL, w') ∧
      log w' = log w ++ [e] ∧ level e = LOG_ERROR ∧
      sockbase_of sock w' = sockbase_of sock w.

(** ** Example worlds *)

Definition example_address : network_address_t :=
  {| family := NETWORK_ADDRESSFAMILY_IPV4; address_size := 16;
     saddr := [x02; x00; x1f; x90; x7f; x00; x00; x01] |}.

(** One socket object at address 100, bound to [example_address], linked to
    slot 0 of a table of two slots; descriptor 5. *)
Definition example_socket : socket_t :=
  {| base := 0; address_local := Some example_address;
     address_remote := None; open_fn := Some fn_tcp_socket_open;
     stream_initialize_fn := Some fn_tcp_stream_initialize |}.

Definition example_base (st : socket_state_t) (fl : Z) : socket_base_t :=
  {| object := 100; fd := 5; state := st; flags := fl; last_event := 0;
     read_offset := 0; read_length := 0; write_length := 0 |}.

Definition example_world (b : socket_base_t) (e : list call → call → reply)
  : world :=
  {| _socket_base := [b; zero_base]; heap := {[ 100 := example_socket ]};
     trace := []; log := []; env := e |}.

Definition example_listener : socket_base_t :=
  example_base SOCKETSTATE_LISTENING SOCKETFLAG_BLOCKING.

Definition example_reply (r e : Z) : reply :=
  {| ret := r; err := e;
     out_saddr := [x02; x00; xc3; x50; x7f; x00; x00; x01]; out_len := 16 |}.

(** A peer is waiting: [accept] returns descriptor 9 and there is memory. *)
Definition env_peer_waiting : list call → call → reply := λ _ c,
  match c with
  | sys_accept _ _ => example_reply 9 0
  | call_memory_allocate => example_reply 1 0
  | _ => example_reply 0 0
  end.

(** Nobody connects: [accept] would block and [select] times out. *)
Definition env_no_peer : list call → call → reply := λ _ c,
  match c with
  | sys_accept _ _ => example_reply (-1) EAGAIN
  | call_memory_allocate => example_reply 1 0
  | _ => example_reply 0 0
  end.

(** A peer is waiting and the allocator has no memory. *)
Definition env_no_memory : list call → call → reply := λ _ c,
  match c with
  | sys_accept _ _ => example_reply 9 0
  | _ => example_reply 0 0
  end.

(** A socket object fresh from [tcp_socket_allocate]: no base slot, no
    address. *)
Definition example_world_unopened : world :=
  {| _socket_base := [zero_base]; heap := {[ 100 := new_tcp_socket ]};
     trace := []; log := []; env := env_peer_waiting |}.

(** The socket bound and not yet listening, in non-blocking mode. *)
Definition example_bound : socket_base_t :=
  example_base SOCKETSTATE_NOTCONNECTED 0.

(** The same table without a free slot. *)
Definition example_world_full (e : list call → call → reply) : world :=
  {| _socket_base := [example_listener]; heap := {[ 100 := example_socket ]};
     trace := []; log := []; env := e |}.

(** ** The outcome of an accept, in the words of the description *)




(** ** Observations on the calls made *)

(** The calls made between the worlds [w] and [w']. *)
Definition new_calls (w w' : world) : list call :=
  drop (length (trace w)) (trace w').

Definition is_accept (c : call) : bool :=
  match c with sys_accept _ _ => true | _ => false end.
Definition is_select (c : call) : bool :=
  match c with sys_select _ _ _ _ _ => true | _ => false end.
Definition is_close (c : call) : bool :=
  match c with sys_close _ => true | _ => false end.
Definition is_set_blocking (c : call) : bool :=
  match c with sys_set_blocking _ _ => true | _ => false end.

(** How many calls of a kind a list holds. *)
Definition count_calls (kind : call → bool) (l : list call) : nat :=
  length (List.filter kind l).

Definition is_setsockopt (c : call) : bool :=
  match c with sys_setsockopt _ _ _ _ => true | _ => false end.

(** Every call fails. *)
Definition env_all_fail : list call → call → reply := λ _ _,
  example_reply (-1) 0.

(** The example socket with a base slot and no descriptor yet. *)
Definition example_closed : socket_base_t :=
  {| object := 100; fd := SOCKET_INVALID; state := SOCKETSTATE_NOTCONNECTED;
     flags := 0; last_event := 0; read_offset := 0; read_length := 0;
     write_length := 0 |}.

End Tcp.

(* ===================================================================== *)
(** * The network event bus *)
(* ===================================================================== *)

Module Event.

(** Modelled from the spec: the enumeration [network_event_id] of
    network/types.h is missing; "id ∈ {Connect, Accept, Data, Hangup}". *)
Inductive network_event_id :=
| NETWORKEVENT_CONNECT
| NETWORKEVENT_ACCEPT
| NETWORKEVENT_DATA
| NETWORKEVENT_HANGUP.

(** The event record of the foundation library ([FOUNDATION_DECLARE_EVENT]),
    with the fields [event_post] is given: the id, the flags, the object and
    the payload with its size. *)
Record event_t := {
  id : network_event_id;
  flags : Z;
  object : Z;
  payload : Z;
  size : Z
}.

(** Modelled from the spec: the foundation event stream is an external
    collaborator, "allocate(capacity), post(stream, id, flags, object,
    payload_ptr, payload_size), process(stream), deallocate"; a stream is the
    sequence of the records posted to it, oldest first. *)
Record event_stream_t := {
  capacity : Z;
  events : list event_t
}.

(** The state event.c works on: the configuration value
    [_network_config.event_stream_size], the static [_network_events]
    (0 is null) and the event streams allocated. *)
Record state := {
  event_stream_size : Z;
  _network_events : Z;
  streams : gmap Z event_stream_t
}.

Definition NULL : Z := 0.

Definition set_network_events (p : Z) (st : state) : state :=
  {| event_stream_size := event_stream_size st; _network_events := p;
     streams := streams st |}.
Definition set_streams (m : gmap Z event_stream_t) (st : state) : state :=
  {| event_stream_size := event_stream_size st;
     _network_events := _network_events st; streams := m |}.

(** Modelled from the spec: [event_stream_allocate] of the foundation
    library, "allocate(capacity)": a new, empty stream at an address not in
    use. *)
Definition event_stream_allocate (cap : Z) (st : state) : Z * state :=
  let p := fresh ({[NULL]} ∪ dom (streams st)) in
  (p, set_streams (<[p := {| capacity := cap; events := [] |}]> (streams st)) st).

(** Modelled from the spec: [event_stream_deallocate] of the foundation
    library, "deallocate". *)
Definition event_stream_deallocate (p : Z) (st : state) : state :=
  set_streams (delete p (streams st)) st.

(** Modelled from the spec: [event_post] of the foundation library,
    "post(id, handle) appends".  Posting to a pointer that is not a stream has
    no defined result. *)
Definition event_post (p : Z) (i : network_event_id) (fl obj pl sz : Z)
  (st : state) : option state :=
  s ← streams st !! p;
  Some (set_streams
          (<[p := {| capacity := capacity s;
                     events := events s ++
                       [{| id := i; flags := fl; object := obj;
                           payload := pl; size := sz |}] |}]> (streams st))
          st).

(** ** event.c *)

Definition network_event_initialize (st : state) : Z * state :=
  if _network_events st =? NULL then
    let '(p, st') := event_stream_allocate (event_stream_size st) st in
    (0, set_network_events p st')
  else (0, st).

Definition network_event_finalize (st : state) : state :=
  let st' :=
    if _network_events st =? NULL then st
    else event_stream_deallocate (_network_events st) st in
  set_network_events 0 st'.

Definition network_event_stream (st : state) : Z := _network_events st.

Definition network_event_post (i : network_event_id) (sock : Z) (st : state)
  : option state :=
  event_post (_network_events st) i 0 sock 0 0 st.

Definition network_event_socket (event : event_t) : Z := object event.

(** ** Example state *)

(** Before [network_event_initialize]: no stream, 4096 bytes configured. *)
Definition example_state : state :=
  {| event_stream_size := 4096; _network_events := 0; streams := ∅ |}.


(** ** Posting a sequence *)

(** [network_event_post] called for each pair of a list, first to last. *)
Fixpoint network_event_post_all (l : list (network_event_id * Z)) (st : state)
  : option state :=
  match l with
  | [] => Some st
  | (i, sock) :: l' =>
      st' ← network_event_post i sock st;
      network_event_post_all l' st'
  end.

(** The record [network_event_post] builds. *)
Definition network_event (i : network_event_id) (sock : Z) : event_t :=
  {| id := i; flags := 0; object := sock; payload := 0; size := 0 |}.

End Event.

(* ===================================================================== *)
(** * Properties of the TCP sockets *)
(* ===================================================================== *)

Module TcpProofs.
Import Tcp.

(** ** Running the primitives *)

Lemma load_socket_run w sock s :
  heap w !! sock = Some s → load_socket sock w = inr (s, w).
Proof. intros H. unfold load_socket. by rewrite H. Qed.

Lemma load_base_run w i b :
  0 ≤ i → _socket_base w !! Z.to_nat i = Some b → load_base i w = inr (b, w).
Proof.
  intros Hi H. unfold load_base.
  destruct (Z.ltb_spec i 0) as [?|_]; [lia|]. by rewrite H.
Qed.

Lemma store_base_run w i b b' :
  0 ≤ i → _socket_base w !! Z.to_nat i = Some b →
  store_base i b' w = inr (tt, set_table (<[Z.to_nat i := b']> (_socket_base w)) w).
Proof.
  intros Hi H. unfold store_base.
  destruct (Z.ltb_spec i 0) as [?|_]; [lia|]. by rewrite H.
Qed.

Lemma bind_run {A B} (m : M A) (k : A → M B) w a w' :
  m w = inr (a, w') → (m ≫= k) w = k a w'.
Proof. intros H. unfold mbind, M_bind. by rewrite H. Qed.

Lemma ret_bind {A B} (a : A) (k : A → M B) w : (mret a ≫= k) w = k a w.
Proof. done. Qed.

Lemma bind_fault {A B} (m : M A) (k : A → M B) w e :
  m w = inl e → (m ≫= k) w = inl e.
Proof. intros H. unfold mbind, M_bind. by rewrite H. Qed.

Lemma has_base_slot_sockbase_of sock w s b :
  has_base_slot sock w s b → sockbase_of sock w = Some b.
Proof.
  intros (Hs & Hi & Hb). unfold sockbase_of. rewrite Hs. simpl.
  destruct (Z.ltb_spec (base s) 0); [lia | done].
Qed.

(** ** Sockets without a base slot *)

(** C9: with a negative base index, [tcp_socket_listen] returns false,
    [tcp_socket_accept] returns null, [tcp_socket_delay] returns false and
    [tcp_socket_set_delay] returns; none of them changes the world: the table,
    the sockets, the calls made and the log are as before. *)
Theorem tcp_no_base_slot_is_safe (w : world) (sock : Z) (s : socket_t)
    (timeoutms : Z) (delay : bool) :
  heap w !! sock = Some s →
  base s < 0 →
  tcp_socket_listen sock w = inr (false, w) ∧
  tcp_socket_accept sock timeoutms w = inr (NULL, w) ∧
  tcp_socket_delay sock w = inr (false, w) ∧
  tcp_socket_set_delay sock delay w = inr (tt, w).
Proof.
  intros Hs Hneg.
  assert (Hlt : (base s <? 0) = true) by (apply Z.ltb_lt; lia).
  assert (Hle : (0 <=? base s) = false) by (apply Z.leb_gt; lia).
  unfold tcp_socket_listen, tcp_socket_accept, tcp_socket_delay,
    tcp_socket_set_delay.
  rewrite !(bind_run _ _ _ _ _ (load_socket_run _ _ _ Hs)), Hlt, Hle.
  done.
Qed.

Lemma tcp_no_base_slot_is_safe_witness :
  tcp_socket_listen 100 example_world_unopened
    = inr (false, example_world_unopened) ∧
  tcp_socket_accept 100 250 example_world_unopened
    = inr (NULL, example_world_unopened) ∧
  tcp_socket_delay 100 example_world_unopened
    = inr (false, example_world_unopened) ∧
  tcp_socket_set_delay 100 true example_world_unopened
    = inr (tt, example_world_unopened).
Proof.
  apply (tcp_no_base_slot_is_safe example_world_unopened 100 new_tcp_socket
           250 true); [reflexivity | simpl; lia].
Defined.

(** ** Listening *)

(** A bound socket starts to listen; a second [listen] is refused. *)
Example tcp_socket_listen_example :
  let w := example_world example_bound env_peer_waiting in
  let w' := run_world (tcp_socket_listen 100) w in
  sockbase_of 100 w' = Some (example_base SOCKETSTATE_LISTENING 0) ∧
  trace w' = [sys_listen 5 SOMAXCONN] ∧
  tcp_socket_listen 100 w' = inr (false, w').
Proof. vm_compute. done. Qed.

Lemma listen_guard_false (s : socket_t) (b : socket_base_t) (st : socket_state_t) :
  bool_decide (state b ≠ st) || (fd b =? SOCKET_INVALID)
    || is_null (address_local s) = false →
  state b = st ∧ fd b ≠ SOCKET_INVALID ∧ address_local s ≠ None.
Proof.
  intros H.
  apply orb_false_elim in H as [H Hnull].
  apply orb_false_elim in H as [Hstate Hfd].
  apply bool_decide_eq_false in Hstate.
  apply Z.eqb_neq in Hfd.
  split; [by destruct (decide (state b = st)) | split; [done|]].
  by destruct (address_local s).
Qed.

Lemma listen_guard_true (s : socket_t) (b : socket_base_t) (st : socket_state_t) :
  bool_decide (state b ≠ st) || (fd b =? SOCKET_INVALID)
    || is_null (address_local s) = true →
  state b ≠ st ∨ fd b = SOCKET_INVALID ∨ address_local s = None.
Proof.
  intros H.
  apply orb_true_iff in H as [H | Hnull].
  - apply orb_true_iff in H as [Hstate | Hfd].
    + left. by apply bool_decide_eq_true in Hstate.
    + right; left. by apply Z.eqb_eq.
  - right; right. by destruct (address_local s).
Qed.

(** C2: [tcp_socket_listen] returns true exactly when the entry conditions
    hold (state NotConnected, valid descriptor, local address set) and the
    system's [listen] returns 0, and then the state of the base record is
    Listening; when an entry condition fails it returns false and leaves the
    world as it was; whenever it returns false the table is unchanged. *)
Theorem tcp_socket_listen_spec (w : world) (sock : Z) (s : socket_t) :
  heap w !! sock = Some s →
  (base s < 0 ∨ is_Some (_socket_base w !! Z.to_nat (base s))) →
  ∃ r w',
    tcp_socket_listen sock w = inr (r, w') ∧
    (r = true →
       listen_precondition sock w ∧
       state <$> sockbase_of sock w' = Some SOCKETSTATE_LISTENING) ∧
    (¬ listen_precondition sock w → r = false ∧ w' = w) ∧
    (r = false →
       _socket_base w' = _socket_base w ∧ heap w' = heap w) ∧
    (listen_precondition sock w →
       r = (ret (env w (trace w)
                   (sys_listen (default 0 (fd <$> sockbase_of sock w))
                      SOMAXCONN)) =? 0)).
Proof.
  intros Hs Hslot. unfold tcp_socket_listen.
  rewrite (bind_run _ _ _ _ _ (load_socket_run _ _ _ Hs)).
  destruct (Z.ltb_spec (base s) 0) as [Hneg|Hpos].
  { exists false, w. repeat split; try done.
    intros (s' & b' & (Hs' & Hi & _) & _). simplify_eq. lia. }
  destruct Hslot as [? | [b Hb]]; [lia|].
  assert (Hlt : (base s <? 0) = false) by (apply Z.ltb_ge; lia).
  rewrite (bind_run _ _ _ _ _ (load_base_run _ _ _ Hpos Hb)).
  assert (Hsb : sockbase_of sock w = Some b)
    by (apply (has_base_slot_sockbase_of _ _ s); done).
  destruct (_ || _ || _) eqn:Hguard.
  { exists false, w. repeat split; try done.
    intros (s' & b' & (Hs' & Hi & Hb') & Hst & Hfd & Hal).
    simplify_eq. apply listen_guard_true in Hguard as [?|[?|?]]; done. }
  apply listen_guard_false in Hguard as (Hst & Hfd & Hal).
  assert (Hpre : listen_precondition sock w) by (exists s, b; done).
  rewrite Hsb. simpl.
  unfold mbind at 1, M_bind at 1, syscall at 1.
  destruct (ret _ =? 0) eqn:Hret.
  - eexists true, _. split.
    { unfold log_infof, log_msg, modify_base.
      unfold mbind, M_bind, load_base, store_base, mret, M_ret.
      repeat (simpl; rewrite ?Hlt, ?Hb). done. }
    repeat split; try done.
    unfold sockbase_of. simpl. rewrite Hs. simpl. rewrite Hlt.
    rewrite list_lookup_insert_eq; [done|].
    by apply lookup_lt_Some in Hb.
  - eexists false, _. split.
    { unfold log_errorf, log_msg, mbind, M_bind, mret, M_ret. done. }
    repeat split; try done.
Qed.

Lemma tcp_socket_listen_spec_witness :
  ∃ w',
    tcp_socket_listen 100 (example_world example_bound env_peer_waiting)
      = inr (true, w') ∧
    state <$> sockbase_of 100 w' = Some SOCKETSTATE_LISTENING.
Proof.
  destruct (tcp_socket_listen_spec
              (example_world example_bound env_peer_waiting) 100 example_socket)
    as (r & w' & Hrun & Htrue & _ & _ & Hret).
  - reflexivity.
  - right. eexists. reflexivity.
  - assert (Hr : r = true).
    { apply Hret. exists example_socket, example_bound.
      repeat split; simpl; try reflexivity; try lia; discriminate. }
    subst r. exists w'. split; [exact Hrun | apply Htrue; reflexivity].
Defined.

(** ** The delay flag *)

(** Opening a socket whose TcpDelay flag is set turns Nagle's algorithm on
    for the new descriptor (here descriptor 0). *)
Example tcp_socket_open_example :
  let w := example_world (example_base SOCKETSTATE_NOTCONNECTED
                            SOCKETFLAG_TCPDELAY) env_peer_waiting in
  let w' := run_world (_tcp_socket_open 100 NETWORK_ADDRESSFAMILY_IPV6) w in
  trace w' = [sys_socket AF_INET6 SOCK_STREAM IPPROTO_TCP;
              sys_setsockopt 0 IPPROTO_TCP TCP_NODELAY 0] ∧
  tcp_socket_delay 100 w' = inr (true, w').
Proof. vm_compute. done. Qed.

Lemma flag_set_lor (f m : Z) : m ≠ 0 → flag_set (Z.lor f m) m = true.
Proof.
  intros Hm. unfold flag_set.
  assert (Z.land (Z.lor f m) m = m) as ->.
  { apply Z.bits_inj'. intros n _. rewrite Z.land_spec, Z.lor_spec.
    by destruct (Z.testbit f n), (Z.testbit m n). }
  by apply negb_true_iff, Z.eqb_neq.
Qed.

Lemma flag_set_land_lnot (f m : Z) : flag_set (Z.land f (Z.lnot m)) m = false.
Proof.
  unfold flag_set.
  assert (Z.land (Z.land f (Z.lnot m)) m = 0) as ->; [|done].
  apply Z.bits_inj'. intros n Hn.
  rewrite !Z.land_spec, Z.lnot_spec, Z.bits_0 by done.
  by destruct (Z.testbit f n), (Z.testbit m n).
Qed.

(** Bits other than the one of [SOCKETFLAG_TCPDELAY] keep their value. *)
Lemma tcpdelay_update_other_bits (f : Z) (delay : bool) (n : Z) :
  0 ≤ n → n ≠ 1 →
  Z.testbit (if delay then Z.lor f SOCKETFLAG_TCPDELAY
             else Z.land f (Z.lnot SOCKETFLAG_TCPDELAY)) n = Z.testbit f n.
Proof.
  intros Hn Hne. unfold SOCKETFLAG_TCPDELAY.
  assert (Hbit : Z.testbit 2 n = false).
  { change 2 with (2 ^ 1). rewrite Z.pow2_bits_eqb by lia.
    apply Z.eqb_neq. lia. }
  destruct delay.
  - rewrite Z.lor_spec, Hbit. by rewrite orb_false_r.
  - rewrite Z.land_spec, Z.lnot_spec, Hbit by done. by rewrite andb_true_r.
Qed.

Lemma delay_flags_set (f : Z) (delay : bool) :
  flag_set (delay_flags f delay) SOCKETFLAG_TCPDELAY = delay.
Proof.
  destruct delay; simpl.
  - by apply flag_set_lor.
  - apply flag_set_land_lnot.
Qed.

Lemma tcp_socket_set_delay_run (w : world) (sock : Z) (s : socket_t)
    (b : socket_base_t) (delay : bool) :
  has_base_slot sock w s b →
  tcp_socket_set_delay sock delay w =
    inr (tt,
         let w1 := set_table (<[Z.to_nat (base s) :=
                                 set_flags (delay_flags (flags b) delay) b]>
                                (_socket_base w)) w in
         if fd b =? SOCKET_INVALID then w1
         else set_trace (trace w ++
                [sys_setsockopt (fd b) IPPROTO_TCP TCP_NODELAY
                   (if delay then 0 else 1)]) w1).
Proof.
  intros (Hs & Hpos & Hb). unfold tcp_socket_set_delay.
  assert (Hlt : (base s <? 0) = false) by (apply Z.ltb_ge; lia).
  rewrite (bind_run _ _ _ _ _ (load_socket_run _ _ _ Hs)), Hlt.
  rewrite (bind_run _ _ _ _ _ (load_base_run _ _ _ Hpos Hb)).
  rewrite (bind_run _ _ _ _ _ (store_base_run _ _ _ _ Hpos Hb)).
  unfold delay_flags. simpl.
  destruct (fd b =? SOCKET_INVALID); done.
Qed.

(** C4: on a socket with a base slot, [tcp_socket_set_delay] leaves the
    TcpDelay flag set exactly when [delay] is true, touches no other flag bit
    and no other field, and, when the descriptor is valid, sets the option
    TCP_NODELAY to 0 for [delay = true] and to 1 for [delay = false].  When
    [_tcp_socket_open] obtains a descriptor, it sets TCP_NODELAY on it from
    the TcpDelay flag in the same inverted sense and keeps the flag. *)
Theorem tcp_socket_set_delay_spec (w : world) (sock : Z) (s : socket_t)
    (b : socket_base_t) (delay : bool) :
  has_base_slot sock w s b →
  (∃ w' b',
      tcp_socket_set_delay sock delay w = inr (tt, w') ∧
      sockbase_of sock w' = Some b' ∧
      flag_set (flags b') SOCKETFLAG_TCPDELAY = delay ∧
      (∀ n, 0 ≤ n → n ≠ 1 → Z.testbit (flags b') n = Z.testbit (flags b) n) ∧
      b' = set_flags (flags b') b ∧
      heap w' = heap w ∧
      log w' = log w ∧
      trace w' = trace w ++
        (if decide (fd b = SOCKET_INVALID) then []
         else [sys_setsockopt (fd b) IPPROTO_TCP TCP_NODELAY
                 (if delay then 0 else 1)])) ∧
  (∀ fam,
      let r := env w (trace w) (open_call fam) in
      0 ≤ ret r →
      ∃ w' b',
        _tcp_socket_open sock fam w = inr (tt, w') ∧
        sockbase_of sock w' = Some b' ∧
        fd b' = ret r ∧
        flag_set (flags b') SOCKETFLAG_TCPDELAY
          = flag_set (flags b) SOCKETFLAG_TCPDELAY ∧
        trace w' = trace w ++
          [open_call fam;
           sys_setsockopt (ret r) IPPROTO_TCP TCP_NODELAY
             (if flag_set (flags b) SOCKETFLAG_TCPDELAY then 0 else 1)]).
Proof.
  intros Hslot. pose proof Hslot as (Hs & Hpos & Hb).
  assert (Hlt : (base s <? 0) = false) by (apply Z.ltb_ge; lia).
  assert (Hlen : (Z.to_nat (base s) < length (_socket_base w))%nat)
    by (by apply lookup_lt_Some in Hb).
  split.
  - eexists _, (set_flags (delay_flags (flags b) delay) b).
    split; [by apply tcp_socket_set_delay_run|].
    split.
    { unfold sockbase_of. destruct (fd b =? SOCKET_INVALID); simpl;
        rewrite Hs; simpl; rewrite Hlt; by rewrite list_lookup_insert_eq. }
    split; [apply delay_flags_set|].
    split; [intros n Hn Hne; by apply tcpdelay_update_other_bits|].
    split; [done|].
    destruct (Z.eqb_spec (fd b) SOCKET_INVALID) as [Heq|Hne]; simpl.
    + rewrite decide_True by done. by rewrite app_nil_r.
    + by rewrite decide_False by done.
  - intros fam r Hret.
    set (w1 := set_trace (trace w ++ [open_call fam]) w).
    set (b1 := set_fd (ret r) b).
    set (w2 := set_table (<[Z.to_nat (base s) := b1]> (_socket_base w1)) w1).
    set (w3 := set_log (log w2 ++ [{| level := LOG_DEBUG;
                                     message := "Opened TCP/IP socket" |}]) w2).
    assert (Hslot3 : has_base_slot sock w3 s b1).
    { repeat split; [done..|]. simpl. by rewrite list_lookup_insert_eq. }
    assert (Hopen : _tcp_socket_open sock fam w =
                    tcp_socket_set_delay sock
                      (flag_set (flags b) SOCKETFLAG_TCPDELAY) w3).
    { unfold _tcp_socket_open.
      rewrite (bind_run _ _ _ _ _ (load_socket_run _ _ _ Hs)), Hlt.
      assert (Hcall : syscall (match fam with
                               | NETWORK_ADDRESSFAMILY_IPV6 =>
                                   sys_socket AF_INET6 SOCK_STREAM IPPROTO_TCP
                               | _ => sys_socket AF_INET SOCK_STREAM IPPROTO_TCP
                               end) w = inr (r, w1)) by (by destruct fam).
      rewrite (bind_run _ _ _ _ _ Hcall).
      assert (Hmod : modify_base (base s) (set_fd (ret r)) w1 = inr (tt, w2)).
      { unfold modify_base.
        rewrite (bind_run _ _ _ _ _ (load_base_run w1 _ _ Hpos Hb)).
        by rewrite (store_base_run w1 _ b _ Hpos Hb). }
      rewrite (bind_run _ _ _ _ _ Hmod).
      assert (Hb2 : _socket_base w2 !! Z.to_nat (base s) = Some b1)
        by (simpl; by rewrite list_lookup_insert_eq).
      rewrite (bind_run _ _ _ _ _ (load_base_run w2 _ _ Hpos Hb2)).
      simpl. destruct (Z.ltb_spec (ret r) 0); [lia|]. done. }
    rewrite Hopen, (tcp_socket_set_delay_run _ _ _ _ _ Hslot3).
    assert (Hvalid : (fd b1 =? SOCKET_INVALID) = false)
      by (apply Z.eqb_neq; unfold SOCKET_INVALID; simpl; lia).
    rewrite Hvalid.
    eexists _, (set_flags (delay_flags (flags b1)
                             (flag_set (flags b) SOCKETFLAG_TCPDELAY)) b1).
    split; [done|].
    split.
    { unfold sockbase_of. simpl. rewrite Hs. simpl. rewrite Hlt.
      rewrite list_lookup_insert_eq; [done|]. by rewrite length_insert. }
    split; [done|].
    split; [apply delay_flags_set|].
    simpl. by rewrite <- app_assoc.
Qed.

Lemma tcp_socket_set_delay_spec_witness :
  ∃ w' b',
    tcp_socket_set_delay 100 true (example_world example_bound env_peer_waiting)
      = inr (tt, w') ∧
    sockbase_of 100 w' = Some b' ∧
    flag_set (flags b') SOCKETFLAG_TCPDELAY = true ∧
    trace w' = [sys_setsockopt 5 IPPROTO_TCP TCP_NODELAY 0].
Proof.
  destruct (tcp_socket_set_delay_spec
              (example_world example_bound env_peer_waiting) 100 example_socket
              example_bound true)
    as [(w' & b' & Hrun & Hb' & Hflag & _ & _ & _ & _ & Htrace) _].
  - repeat split; simpl; try reflexivity; lia.
  - exists w', b'. split; [exact Hrun|]. split; [exact Hb'|].
    split; [exact Hflag | exact Htrace].
Defined.

(** ** Blocking mode *)

#[local] Arguments blocking_flags : simpl never.

Lemma socket_set_blocking_run (w : world) (sock : Z) (s : socket_t)
    (b : socket_base_t) (block : bool) :
  has_base_slot sock w s b →
  socket_set_blocking sock block w =
    inr (tt,
         let w1 := set_table (<[Z.to_nat (base s) :=
                                 set_flags (blocking_flags (flags b) block) b]>
                                (_socket_base w)) w in
         if fd b =? SOCKET_INVALID then w1
         else set_trace (trace w ++ [sys_set_blocking (fd b) block]) w1).
Proof.
  intros (Hs & Hpos & Hb). unfold socket_set_blocking.
  assert (Hlt : (base s <? 0) = false) by (apply Z.ltb_ge; lia).
  rewrite (bind_run _ _ _ _ _ (load_socket_run _ _ _ Hs)), Hlt.
  rewrite (bind_run _ _ _ _ _ (load_base_run _ _ _ Hpos Hb)).
  rewrite (bind_run _ _ _ _ _ (store_base_run _ _ _ _ Hpos Hb)).
  unfold blocking_flags. simpl.
  destruct (fd b =? SOCKET_INVALID); done.
Qed.

Lemma flag_set_bit0 (f : Z) :
  flag_set f SOCKETFLAG_BLOCKING = Z.testbit f 0.
Proof.
  unfold flag_set, SOCKETFLAG_BLOCKING.
  change 1 with (Z.ones 1). rewrite Z.land_ones by lia.
  change (2 ^ 1) with 2. rewrite <- Z.bit0_mod.
  by destruct (Z.testbit f 0).
Qed.

(** Clearing and then setting the Blocking bit of a word that had it set
    gives the word back. *)
Lemma blocking_flags_restore (f : Z) :
  flag_set f SOCKETFLAG_BLOCKING = true →
  blocking_flags (blocking_flags f false) true = f.
Proof.
  rewrite flag_set_bit0. intros Hbit.
  unfold blocking_flags, SOCKETFLAG_BLOCKING.
  apply Z.bits_inj'. intros n Hn.
  rewrite Z.lor_spec, Z.land_spec, Z.lnot_spec by done.
  destruct (decide (n = 0)) as [->|Hne].
  - rewrite Hbit. done.
  - assert (Z.testbit 1 n = false) as ->.
    { change 1 with (2 ^ 0). rewrite Z.pow2_bits_eqb by lia.
      apply Z.eqb_neq. lia. }
    simpl. by rewrite andb_true_r, orb_false_r.
Qed.

Lemma set_flags_id (b : socket_base_t) : set_flags (flags b) b = b.
Proof. by destruct b. Qed.

Lemma set_flags_set_flags (f g : Z) (b : socket_base_t) :
  set_flags f (set_flags g b) = set_flags f b.
Proof. done. Qed.

(** ** The accept call and the bounded wait *)

Lemma accept_wait_run (w : world) (i : Z) (b : socket_base_t)
    (a : network_address_t) (timeoutms : Z) :
  0 ≤ i → _socket_base w !! Z.to_nat i = Some b →
  let acc := sys_accept (fd b) (address_size a) in
  let calls := accept_wait_calls (env w) (trace w) (fd b) (address_size a)
                 timeoutms in
  ∃ d a',
    accept_wait i a timeoutms w = inr ((d, a'), set_trace (trace w ++ calls) w) ∧
    (d < 0 ∨
     ∃ pre,
       trace w ++ calls = pre ++ [acc] ∧
       trace w `prefix_of` pre ∧
       d = ret (env w pre acc) ∧
       a' = {| family := family a; address_size := address_size a;
               saddr := out_saddr (env w pre acc) |}) ∧
    (0 ≤ ret (env w (trace w) acc) →
     d = ret (env w (trace w) acc) ∧ calls = [acc]).
Proof.
  intros Hi Hb acc calls. unfold accept_wait.
  rewrite (bind_run _ _ _ _ _ (load_base_run _ _ _ Hi Hb)).
  subst calls. unfold accept_wait_calls, accept.
  unfold mbind, M_bind, mret, M_ret, syscall. simpl.
  fold acc.
  destruct (Z.ltb_spec (ret (env w (trace w) acc)) 0) as [Hneg|Hok]; simpl.
  - destruct (0 <? timeoutms); simpl;
      [|eexists _, _; split; [done|split; [by left|lia]]].
    destruct (err (env w (trace w) acc) =? EAGAIN); simpl;
      [|eexists _, _; split; [done|split; [by left|lia]]].
    destruct (0 <? ret _); simpl.
    + eexists _, _. split.
      { rewrite <- !app_assoc. done. }
      split; [|lia].
      set (sel := sys_select _ _ _ _ _).
      destruct (Z.ltb_spec (ret (env w (trace w ++ [acc] ++ [sel]) acc)) 0);
        [by left|].
      right. exists (trace w ++ [acc] ++ [sel]).
      split; [by rewrite <- !app_assoc|].
      split; [by apply prefix_app_r|]. split; [done|]. fold acc.
      destruct (Z.ltb_spec (ret (env w (trace w ++ [acc] ++ [sel]) acc)) 0);
        [lia|done].
    + eexists _, _. split; [by rewrite <- app_assoc|]. split; [by left|lia].
  - eexists _, _. split; [done|]. split; [|done]. right. exists (trace w).
    repeat split; try done.
Qed.

Lemma accept_guard_passes (s : socket_t) (b : socket_base_t)
    (a : network_address_t) (st : socket_state_t) :
  state b = st → fd b ≠ SOCKET_INVALID → address_local s = Some a →
  bool_decide (state b ≠ st) || (fd b =? SOCKET_INVALID)
    || is_null (address_local s) = false.
Proof.
  intros Hst Hfd Hal. rewrite Hal. simpl.
  rewrite bool_decide_eq_false_2 by (intros Hne; by apply Hne).
  simpl. rewrite orb_false_r. by apply Z.eqb_neq.
Qed.

(** Lines 103-158 of tcp.c on a listening socket: the table, the sockets and
    the log are as on entry when the code reaches line 160, and the calls made
    are [accept_calls]. *)
Lemma tcp_socket_accept_front (w : world) (sock : Z) (s : socket_t)
    (b : socket_base_t) (a : network_address_t) (timeoutms : Z) :
  listening sock w s b a →
  let acc := sys_accept (fd b) (address_size a) in
  let toggle := (0 <? timeoutms) && flag_set (flags b) SOCKETFLAG_BLOCKING in
  let calls := accept_calls (env w) (trace w) (fd b) (address_size a) timeoutms
                 (flag_set (flags b) SOCKETFLAG_BLOCKING) in
  ∃ d a',
    tcp_socket_accept sock timeoutms w
      = accept_finish d a' (set_trace (trace w ++ calls) w) ∧
    (d < 0 ∨
     ∃ pre,
       trace w ++ calls
         = pre ++ [acc] ++
           (if toggle then [sys_set_blocking (fd b) true] else []) ∧
       trace w `prefix_of` pre ∧
       d = ret (env w pre acc) ∧
       a' = {| family := family a; address_size := address_size a;
               saddr := out_saddr (env w pre acc) |}) ∧
    (¬ toggle → 0 ≤ ret (env w (trace w) acc) →
     d = ret (env w (trace w) acc) ∧ calls = [acc]).
Proof.
  intros (Hslot & Hst & Hfd & Hal) acc toggle calls.
  pose proof Hslot as (Hs & Hpos & Hb).
  assert (Hlt : (base s <? 0) = false) by (apply Z.ltb_ge; lia).
  assert (Hvalid : (fd b =? SOCKET_INVALID) = false) by (by apply Z.eqb_neq).
  unfold tcp_socket_accept.
  rewrite (bind_run _ _ _ _ _ (load_socket_run _ _ _ Hs)), Hlt.
  rewrite (bind_run _ _ _ _ _ (load_base_run _ _ _ Hpos Hb)).
  rewrite (accept_guard_passes s b a _ Hst Hfd Hal).
  subst calls. unfold accept_calls. fold toggle.
  destruct toggle eqn:Htoggle.
  - assert (Hblocking : flag_set (flags b) SOCKETFLAG_BLOCKING = true)
      by (by apply andb_true_iff in Htoggle as [_ ?]).
    rewrite (bind_run _ _ _ _ _ (socket_set_blocking_run _ _ _ _ false Hslot)).
    simpl. rewrite Hvalid.
    set (b1 := set_flags (blocking_flags (flags b) false) b).
    set (w1 := set_trace _ (set_table _ w)).
    assert (Hlen : (Z.to_nat (base s) < length (_socket_base w))%nat)
      by (by apply lookup_lt_Some in Hb).
    assert (Hb1 : _socket_base w1 !! Z.to_nat (base s) = Some b1)
      by (simpl; by rewrite list_lookup_insert_eq).
    rewrite (bind_run _ _ _ _ _ (load_socket_run w1 _ _ Hs)), Hal.
    unfold network_address_clone.
    destruct (accept_wait_run w1 (base s) b1 a timeoutms Hpos Hb1)
      as (d & a' & Hrun & Hres & _).
    rewrite (bind_run _ _ _ _ _ Hrun).
    set (w2 := set_trace _ w1).
    assert (Hslot2 : has_base_slot sock w2 s b1) by done.
    rewrite (bind_run _ _ _ _ _ (socket_set_blocking_run _ _ _ _ true Hslot2)).
    simpl. rewrite Hvalid.
    exists d, a'. split.
    + f_equal. subst w2 w1 b1. simpl.
      rewrite list_insert_insert_eq, set_flags_set_flags.
      rewrite blocking_flags_restore, set_flags_id by done.
      rewrite list_insert_id by done.
      destruct w. unfold set_trace, set_table. simpl. f_equal.
      by rewrite <- !app_assoc.
    + split; [|by intros []].
      destruct Hres as [Hneg | (pre & Hpre & Hprefix & Hd & Ha')]; [by left|].
      right. exists pre. simpl in Hpre, Hprefix, Hd, Ha'. fold acc in Hpre.
      split.
      { trans ((pre ++ [acc]) ++ [sys_set_blocking (fd b) true]).
        - rewrite <- Hpre. by rewrite <- !app_assoc.
        - by rewrite <- app_assoc. }
      split; [|done].
      etrans; [|done]. by apply prefix_app_r.
  - rewrite ret_bind.
    rewrite (bind_run _ _ _ _ _ (load_socket_run w _ _ Hs)), Hal.
    unfold network_address_clone.
    destruct (accept_wait_run w (base s) b a timeoutms Hpos Hb)
      as (d & a' & Hrun & Hres & Hfirst).
    rewrite (bind_run _ _ _ _ _ Hrun), ret_bind.
    exists d, a'. split; [done|]. split; [|by intros _].
    destruct Hres as [Hneg | (pre & Hpre & Hprefix & Hd & Ha')]; [by left|].
    right. exists pre. by rewrite app_nil_r.
Qed.

(** ** Allocation of the accepted socket *)

Ltac mred :=
  unfold mbind, M_bind, mret, M_ret, gets, modify, load_socket, store_socket,
    load_base, store_base, syscall, log_debugf, log_infof, log_errorf, log_msg;
  simpl.

Lemma next_socket_fresh (w : world) :
  next_socket w ≠ NULL ∧ heap w !! next_socket w = None.
Proof.
  pose proof (is_fresh ({[NULL]} ∪ dom (heap w))) as Hfresh.
  fold (next_socket w) in Hfresh.
  split.
  - intros Heq. apply Hfresh. rewrite Heq. set_solver.
  - apply not_elem_of_dom. set_solver.
Qed.

Lemma tcp_socket_allocate_run (w : world) :
  ret (env w (trace w) call_memory_allocate) ≠ 0 →
  tcp_socket_allocate w =
    inr (next_socket w,
         set_heap (<[next_socket w := new_tcp_socket]> (heap w))
           (set_trace (trace w ++ [call_memory_allocate]) w)).
Proof.
  intros Hret. apply Z.eqb_neq in Hret.
  unfold tcp_socket_allocate, memory_allocate, tcp_socket_initialize,
    _socket_initialize, modify_socket.
  mred. rewrite Hret. simpl. fold (next_socket w).
  repeat (rewrite lookup_insert_eq; simpl).
  unfold set_heap. simpl. by rewrite !insert_insert_eq.
Qed.

(** Without memory the allocator returns null and [tcp_socket_initialize]
    writes through it. *)
Lemma tcp_socket_allocate_null (w : world) :
  heap w !! NULL = None →
  ret (env w (trace w) call_memory_allocate) = 0 →
  tcp_socket_allocate w = inl InvalidPointer.
Proof.
  intros Hnull Hret. apply Z.eqb_eq in Hret.
  unfold tcp_socket_allocate, memory_allocate, tcp_socket_initialize,
    _socket_initialize, modify_socket.
  mred. rewrite Hret. simpl. by rewrite Hnull.
Qed.

Lemma accept_finish_invalid (w : world) (d : Z) (a' : network_address_t) :
  d < 0 →
  accept_finish d a' w =
    inr (NULL, set_log (log w ++ [log_debug "Accept returned invalid socket fd"]) w).
Proof.
  intros Hd. unfold accept_finish.
  destruct (Z.ltb_spec d 0); [done | lia].
Qed.

Lemma accept_finish_no_memory (w : world) (d : Z) (a' : network_address_t) :
  0 ≤ d →
  heap w !! NULL = None →
  ret (env w (trace w) call_memory_allocate) = 0 →
  accept_finish d a' w = inl InvalidPointer.
Proof.
  intros Hd Hnull Hret. unfold accept_finish.
  destruct (Z.ltb_spec d 0); [lia|].
  by rewrite (bind_fault _ _ _ _ (tcp_socket_allocate_null _ Hnull Hret)).
Qed.

Lemma accept_finish_no_slot (w : world) (d : Z) (a' : network_address_t) :
  0 ≤ d →
  ret (env w (trace w) call_memory_allocate) ≠ 0 →
  free_slot (_socket_base w) = None →
  accept_finish d a' w =
    inr (NULL,
         set_log (log w ++
                    [log_debug "Unable to allocate socket base for accepted fd"])
           (set_trace (trace w ++ [call_memory_allocate]) w)).
Proof.
  intros Hd Hret Hfull. unfold accept_finish.
  destruct (Z.ltb_spec d 0); [lia|].
  rewrite (bind_run _ _ _ _ _ (tcp_socket_allocate_run _ Hret)).
  destruct (next_socket_fresh w) as [Hnz Hfresh].
  apply Z.eqb_neq in Hnz. rewrite Hnz.
  unfold _socket_allocate_base, socket_deallocate. unfold free_slot in Hfull.
  mred. rewrite !lookup_insert_eq. simpl. rewrite Hfull. simpl.
  rewrite !lookup_insert_eq. simpl.
  rewrite delete_insert_eq, delete_id by done.
  by destruct w.
Qed.

Lemma accept_finish_success (w : world) (d : Z) (a' : network_address_t)
    (j : nat) (bj : socket_base_t) :
  0 ≤ d →
  ret (env w (trace w) call_memory_allocate) ≠ 0 →
  free_slot (_socket_base w) = Some (j, bj) →
  let p := next_socket w in
  let g := env w (trace w ++ [call_memory_allocate]) (sys_getsockname d) in
  accept_finish d a' w =
    inr (p,
         {| _socket_base := <[j := accepted_base p d]> (_socket_base w);
            heap := <[p := accepted_socket j a' g]> (heap w);
            trace := trace w ++ [call_memory_allocate; sys_getsockname d];
            log := log w ++ [log_info "Accepted connection on TCP/IP socket"];
            env := env w |}).
Proof.
  intros Hd Hret Hfree p g. unfold accept_finish.
  destruct (Z.ltb_spec d 0); [lia|].
  rewrite (bind_run _ _ _ _ _ (tcp_socket_allocate_run _ Hret)).
  destruct (next_socket_fresh w) as [Hnz Hfresh]. fold p in Hnz, Hfresh |- *.
  apply Z.eqb_neq in Hnz. rewrite Hnz.
  unfold free_slot in Hfree.
  pose proof Hfree as (Hj & _ & _)%list_find_Some.
  apply lookup_lt_Some in Hj.
  assert (Hjz : (Z.of_nat j <? 0) = false) by (apply Z.ltb_ge; lia).
  unfold _socket_allocate_base, _socket_store_address_local, modify_base,
    modify_socket.
  mred. rewrite !lookup_insert_eq. simpl. rewrite Hfree. simpl.
  repeat (rewrite ?lookup_insert_eq, ?Hjz, ?Nat2Z.id, ?list_lookup_insert_eq
            by (rewrite ?length_insert; done); simpl).
  unfold set_log, set_heap, set_trace, set_table. simpl.
  subst g. rewrite <- app_assoc. simpl.
  by rewrite !insert_insert_eq, !list_insert_insert_eq.
Qed.

(** ** Accepting a connection *)

(** What holds of every run that returns: on a listening socket with a
    base slot, every socket [tcp_socket_accept] returns is newly allocated,
    is a TCP socket, has a base record in state Connected holding the
    descriptor the system's [accept] returned, has the address that [accept]
    wrote as its remote address and the answer of [getsockname] on the new
    descriptor as its local address; no other socket object is touched.
    When it returns null the socket objects and the table are as before.  It
    returns whenever the allocator has memory for the socket object. *)
Theorem tcp_socket_accept_spec (w : world) (sock : Z) (s : socket_t)
    (b : socket_base_t) (a : network_address_t) (timeoutms : Z) :
  listening sock w s b a →
  heap w !! NULL = None →
  accept_contract w sock b a timeoutms.
Proof.
  intros Hlistening Hnull.
  destruct (tcp_socket_accept_front w sock s b a timeoutms Hlistening)
    as (d & a' & Hfront & Hres & _).
  set (calls := accept_calls _ _ _ _ _ _) in *.
  set (wm := set_trace (trace w ++ calls) w) in *.
  unfold accept_contract. rewrite Hfront. clear Hfront.
  destruct (Z.lt_ge_cases d 0) as [Hneg | Hd].
  { rewrite (accept_finish_invalid wm d a' Hneg).
    split; [intros p w' [= <- <-]; done|].
    split; [by intros w' [= <-] | eauto]. }
  destruct Hres as [? | (pre & Hpre & Hprefix & Hdeq & Ha')]; [lia|].
  destruct (decide (ret (env wm (trace wm) call_memory_allocate) = 0))
    as [Hoom | Hmem].
  { rewrite (accept_finish_no_memory wm d a' Hd Hnull Hoom).
    split; [done|]. split; [done|]. intros Hmem. done. }
  destruct (free_slot (_socket_base wm)) as [[j bj]|] eqn:Hfree.
  2:{ rewrite (accept_finish_no_slot wm d a' Hd Hmem Hfree).
      split; [intros p w' [= <- <-]; done|].
      split; [by intros w' [= <-] | eauto]. }
  rewrite (accept_finish_success wm d a' j bj Hd Hmem Hfree).
  destruct (next_socket_fresh wm) as [Hnz Hfresh].
  split; [|split; [|eauto]].
  2:{ intros w' [= Heq _]. done. }
  intros p w' [= <- <-] _. split.
  - pose proof Hfree as (Hj & _ & _)%list_find_Some.
    apply lookup_lt_Some in Hj.
    eexists (accepted_socket j a' _), (accepted_base (next_socket wm) d), pre,
      _, (trace wm ++ [call_memory_allocate]).
    simpl. rewrite <- Hdeq.
    split; [done|]. split; [done|].
    split; [by rewrite lookup_insert_eq|].
    split; [done|]. split; [done|].
    split.
    { unfold sockbase_of. simpl. rewrite lookup_insert_eq. simpl.
      destruct (Z.ltb_spec (Z.of_nat j) 0); [lia|].
      by rewrite Nat2Z.id, list_lookup_insert_eq. }
    split; [done|]. split; [done|].
    split.
    { rewrite Hpre. rewrite <- !app_assoc. done. }
    split; [done|]. split; [done|]. split; [done|].
    split; [by rewrite Ha'|].
    split; [by rewrite <- !app_assoc|].
    by rewrite Ha'.
  - intros q Hq. simpl. by rewrite lookup_insert_ne.
Qed.

Lemma tcp_socket_accept_spec_witness :
  accept_contract (example_world example_listener env_peer_waiting) 100
    example_listener example_address 250.
Proof.
  apply (tcp_socket_accept_spec
           (example_world example_listener env_peer_waiting) 100 example_socket).
  - repeat split; simpl; try reflexivity; try lia; discriminate.
  - reflexivity.
Defined.

(** On that input the call does return a socket: the object at the next free
    address, linked to slot 1, with descriptor 9. *)
Example tcp_socket_accept_example :
  ∃ w',
    tcp_socket_accept 100 250 (example_world example_listener env_peer_waiting)
      = inr (101, w') ∧
    sockbase_of 101 w' = Some (accepted_base 101 9) ∧
    trace w' = [sys_set_blocking 5 false; sys_accept 5 16;
                sys_set_blocking 5 true; call_memory_allocate;
                sys_getsockname 9].
Proof. eexists. vm_compute. done. Qed.

Lemma tcp_socket_accept_guard_run (w : world) (sock : Z) (s : socket_t)
    (b : socket_base_t) (timeoutms : Z) :
  has_base_slot sock w s b →
  state b ≠ SOCKETSTATE_LISTENING ∨ fd b = SOCKET_INVALID
    ∨ address_local s = None →
  tcp_socket_accept sock timeoutms w =
    inr (NULL,
         set_log (log w ++
            [log_error "Unable to accept on a non-listening/unbound TCP/IP socket"])
           w).
Proof.
  intros (Hs & Hpos & Hb) Hbad.
  assert (Hlt : (base s <? 0) = false) by (apply Z.ltb_ge; lia).
  unfold tcp_socket_accept.
  rewrite (bind_run _ _ _ _ _ (load_socket_run _ _ _ Hs)), Hlt.
  rewrite (bind_run _ _ _ _ _ (load_base_run _ _ _ Hpos Hb)).
  destruct (_ || _ || _) eqn:Hguard; [done|].
  apply listen_guard_false in Hguard as (? & ? & ?).
  by destruct Hbad as [?|[?|?]].
Qed.

(** C5, amended: on a socket with a base slot whose state is not Listening,
    or whose descriptor is invalid, or whose local address is not set,
    [tcp_socket_accept] returns null and appends one error entry to the log;
    the table (so the state of the socket), the socket objects and the calls
    made are as before. *)
Theorem tcp_socket_accept_rejects (w : world) (sock : Z) (s : socket_t)
    (b : socket_base_t) (timeoutms : Z) :
  has_base_slot sock w s b →
  state b ≠ SOCKETSTATE_LISTENING ∨ fd b = SOCKET_INVALID
    ∨ address_local s = None →
  ∃ w',
    tcp_socket_accept sock timeoutms w = inr (NULL, w') ∧
    log w' = log w ++
      [log_error "Unable to accept on a non-listening/unbound TCP/IP socket"] ∧
    _socket_base w' = _socket_base w ∧
    sockbase_of sock w' = Some b ∧
    heap w' = heap w ∧
    trace w' = trace w.
Proof.
  intros Hslot Hbad. eexists. split.
  - by apply (tcp_socket_accept_guard_run w sock s b).
  - repeat split; try done.
    by apply (has_base_slot_sockbase_of _ _ s).
Qed.

Lemma tcp_socket_accept_rejects_witness :
  ∃ w',
    tcp_socket_accept 100 0 (example_world example_bound env_peer_waiting)
      = inr (NULL, w') ∧
    log w' =
      [log_error "Unable to accept on a non-listening/unbound TCP/IP socket"] ∧
    sockbase_of 100 w' = Some example_bound.
Proof.
  destruct (tcp_socket_accept_rejects
              (example_world example_bound env_peer_waiting) 100 example_socket
              example_bound 0)
    as (w' & Hrun & Hlog & _ & Hbase & _).
  - repeat split; simpl; try reflexivity; lia.
  - left. discriminate.
  - exists w'. split; [exact Hrun|]. split; [exact Hlog | exact Hbase].
Defined.

(** C5 as stated fails: a socket object without a base slot has no local
    address, and [tcp_socket_accept] returns null for it without logging. *)
Lemma tcp_socket_accept_silent_without_base : ¬ accept_always_logs_rejection.
Proof.
  intros Hclaim.
  destruct (Hclaim example_world_unopened 100 new_tcp_socket 0)
    as (w' & e & Hrun & Hlog & _).
  - reflexivity.
  - right; right. reflexivity.
  - vm_compute in Hrun. injection Hrun as <-.
    simpl in Hlog. discriminate.
Qed.

(** ** Blocking mode around accept *)

Lemma socket_blocking_frame (w w' : world) (sock : Z) :
  heap w' !! sock = heap w !! sock →
  (∀ s, heap w !! sock = Some s → 0 ≤ base s →
        _socket_base w' !! Z.to_nat (base s)
          = _socket_base w !! Z.to_nat (base s)) →
  socket_blocking sock w' = socket_blocking sock w.
Proof.
  intros Hheap Htable. unfold socket_blocking. rewrite Hheap.
  destruct (heap w !! sock) as [s|] eqn:Hs; [|done].
  destruct (Z.ltb_spec (base s) 0); [done|].
  by rewrite (Htable s).
Qed.

(** C3, amended: whenever [tcp_socket_accept] returns, the blocking mode of
    the socket it was called on is the one it had on entry.  On a blocking
    listening socket and with a timeout, the calls it makes are: the switch
    to non-blocking; [accept]; if that fails with the would-block error,
    [select] on the listening descriptor with [timeoutms] as the time limit;
    a second [accept] if [select] returned a positive count, and none
    otherwise; the switch back to blocking; and after that nothing but the
    allocation of the accepted socket and the [getsockname] on its
    descriptor, so no further [accept], [select] or mode switch. *)
Theorem tcp_socket_accept_blocking_mode (w : world) (sock : Z) (s : socket_t)
    (timeoutms : Z) (r : Z) (w' : world) :
  heap w !! NULL = None →
  heap w !! sock = Some s →
  (∀ b, sockbase_of sock w = Some b → object b ≠ NULL) →
  tcp_socket_accept sock timeoutms w = inr (r, w') →
  socket_blocking sock w' = socket_blocking sock w ∧
  (∀ b a,
      listening sock w s b a →
      0 < timeoutms →
      flag_set (flags b) SOCKETFLAG_BLOCKING = true →
      let off := sys_set_blocking (fd b) false in
      ∃ rest,
        trace w' = trace w ++ [off] ++
          accept_wait_calls (env w) (trace w ++ [off]) (fd b) (address_size a)
            timeoutms ++
          [sys_set_blocking (fd b) true] ++ rest ∧
        (rest = [] ∨ rest = [call_memory_allocate]
         ∨ ∃ d, rest = [call_memory_allocate; sys_getsockname d])).
Proof.
  intros Hnull Hs Hlinked Hrun.
  destruct (Z.lt_ge_cases (base s) 0) as [Hneg | Hpos].
  { assert (Hlt : (base s <? 0) = true) by (apply Z.ltb_lt; lia).
    unfold tcp_socket_accept in Hrun.
    rewrite (bind_run _ _ _ _ _ (load_socket_run _ _ _ Hs)), Hlt in Hrun.
    injection Hrun as <- <-. split; [done|].
    intros b a ((_ & ? & _) & _). lia. }
  assert (Hlt : (base s <? 0) = false) by (apply Z.ltb_ge; lia).
  destruct (_socket_base w !! Z.to_nat (base s)) as [b|] eqn:Hb.
  2:{ unfold tcp_socket_accept in Hrun.
      rewrite (bind_run _ _ _ _ _ (load_socket_run _ _ _ Hs)), Hlt in Hrun.
      unfold mbind, M_bind, load_base in Hrun. by rewrite Hlt, Hb in Hrun. }
  assert (Hslot : has_base_slot sock w s b) by done.
  assert (Hobj : object b ≠ NULL)
    by (by apply Hlinked, (has_base_slot_sockbase_of _ _ s)).
  destruct (decide (state b = SOCKETSTATE_LISTENING)) as [Hst|Hst].
  2:{ rewrite (tcp_socket_accept_guard_run w sock s b) in Hrun by auto.
      injection Hrun as <- <-. split; [done|].
      by intros b' a ((_ & _ & ?) & ? & _); simplify_eq. }
  destruct (decide (fd b = SOCKET_INVALID)) as [Hfd|Hfd].
  { rewrite (tcp_socket_accept_guard_run w sock s b) in Hrun by auto.
    injection Hrun as <- <-. split; [done|].
    by intros b' a ((_ & _ & ?) & _ & ? & _); simplify_eq. }
  destruct (address_local s) as [a|] eqn:Hal.
  2:{ rewrite (tcp_socket_accept_guard_run w sock s b) in Hrun by auto.
      injection Hrun as <- <-. split; [done|].
      intros b' a (_ & _ & _ & ?). congruence. }
  assert (Hlistening : listening sock w s b a) by done.
  destruct (tcp_socket_accept_front w sock s b a timeoutms Hlistening)
    as (d & a' & Hfront & _).
  rewrite Hfront in Hrun. clear Hfront.
  set (calls := accept_calls _ _ _ _ _ _) in *.
  set (wm := set_trace (trace w ++ calls) w) in *.
  assert (∃ rest, trace w' = trace w ++ calls ++ rest ∧
                  socket_blocking sock w' = socket_blocking sock w ∧
                  (rest = [] ∨ rest = [call_memory_allocate]
                   ∨ ∃ d, rest = [call_memory_allocate; sys_getsockname d]))
    as (rest & Htrace & Hmode & Hshape).
  { destruct (Z.lt_ge_cases d 0) as [Hneg | Hd].
    { rewrite (accept_finish_invalid wm d a' Hneg) in Hrun.
      injection Hrun as <- <-. exists []. rewrite app_nil_r.
      split; [done|]. split; [done|]. by left. }
    destruct (decide (ret (env wm (trace wm) call_memory_allocate) = 0))
      as [Hoom | Hmem].
    { by rewrite (accept_finish_no_memory wm d a' Hd Hnull Hoom) in Hrun. }
    destruct (free_slot (_socket_base wm)) as [[j bj]|] eqn:Hfree.
    2:{ rewrite (accept_finish_no_slot wm d a' Hd Hmem Hfree) in Hrun.
        injection Hrun as <- <-. exists [call_memory_allocate]. simpl.
        rewrite <- app_assoc. split; [done|]. split; [done|]. by right; left. }
    rewrite (accept_finish_success wm d a' j bj Hd Hmem Hfree) in Hrun.
    injection Hrun as <- <-.
    exists [call_memory_allocate; sys_getsockname d]. simpl.
    split; [by rewrite <- app_assoc|].
    split; [|right; right; by exists d].
    destruct (next_socket_fresh wm) as [_ Hfresh].
    pose proof Hfree as (Hj & Hjfree & _)%list_find_Some.
    apply socket_blocking_frame; simpl.
    - apply lookup_insert_ne. intros Heq. rewrite Heq in Hfresh.
      simpl in Hfresh. congruence.
    - intros s0 Hs0 _. simplify_eq.
      apply list_lookup_insert_ne. intros ->.
      simpl in Hj. congruence. }
  split; [done|].
  intros b' a0 ((_ & _ & Hb') & _ & _ & Hal') Htimeout Hblocking off.
  simplify_eq. exists rest. split; [|done]. rewrite Htrace. subst calls.
  unfold accept_calls.
  assert ((0 <? timeoutms) = true) as -> by (apply Z.ltb_lt; lia).
  rewrite Hblocking. simpl. by rewrite <- !app_assoc.
Qed.

Lemma tcp_socket_accept_blocking_mode_witness :
  let w := example_world example_listener env_no_peer in
  let w' := run_world (tcp_socket_accept 100 100) w in
  socket_blocking 100 w' = true ∧
  ∃ rest,
    trace w' = [sys_set_blocking 5 false; sys_accept 5 16;
                sys_select 6 [5] [5] 0 100000; sys_set_blocking 5 true] ++ rest.
Proof.
  intros w w'.
  destruct (tcp_socket_accept_blocking_mode w 100 example_socket 100 NULL w')
    as [Hmode Htrace].
  - reflexivity.
  - reflexivity.
  - intros b Hb. vm_compute in Hb. injection Hb as <-. discriminate.
  - vm_compute. reflexivity.
  - split; [rewrite Hmode; reflexivity|].
    destruct (Htrace example_listener example_address) as [rest [Hrest _]].
    + repeat split; simpl; try reflexivity; try lia; discriminate.
    + lia.
    + reflexivity.
    + exists rest. exact Hrest.
Defined.

(** C3 as stated fails: when [select] times out, [accept] is not called a
    second time. *)
Lemma tcp_socket_accept_no_retry_after_timeout : ¬ accept_always_retries.
Proof.
  intros Hclaim.
  destruct (tcp_socket_accept 100 100 (example_world example_listener env_no_peer))
    as [e | [r w']] eqn:Hrun; [by vm_compute in Hrun|].
  destruct (Hclaim (example_world example_listener env_no_peer) 100
              example_socket example_listener example_address 100 r w')
    as (rest & Htrace); try done.
  vm_compute in Hrun. injection Hrun as <- <-.
  vm_compute in Htrace. discriminate.
Qed.

(** ** Failure to allocate the accepted socket *)

(** With the descriptor in hand and no free base slot, the socket object is
    given back and null is returned; the table is as before, and the calls
    made end with the allocation: the accepted descriptor is not closed. *)
Lemma tcp_socket_accept_out_of_slots (w : world) (sock : Z) (s : socket_t)
    (b : socket_base_t) (a : network_address_t) (timeoutms : Z) :
  listening sock w s b a →
  free_slot (_socket_base w) = None →
  let calls := accept_calls (env w) (trace w) (fd b) (address_size a) timeoutms
                 (flag_set (flags b) SOCKETFLAG_BLOCKING) in
  ret (env w (trace w ++ calls) call_memory_allocate) ≠ 0 →
  ∃ w',
    tcp_socket_accept sock timeoutms w = inr (NULL, w') ∧
    heap w' = heap w ∧
    _socket_base w' = _socket_base w ∧
    (trace w' = trace w ++ calls ∨
     trace w' = trace w ++ calls ++ [call_memory_allocate]).
Proof.
  intros Hlistening Hfull calls Hmem.
  destruct (tcp_socket_accept_front w sock s b a timeoutms Hlistening)
    as (d & a' & Hfront & _).
  fold calls in Hfront. rewrite Hfront.
  set (wm := set_trace (trace w ++ calls) w).
  destruct (Z.lt_ge_cases d 0) as [Hneg | Hd].
  - rewrite (accept_finish_invalid wm d a' Hneg). eexists. split; [done|].
    repeat split; try done. by left.
  - rewrite (accept_finish_no_slot wm d a' Hd Hmem Hfull).
    eexists. split; [done|]. repeat split; try done.
    right. simpl. by rewrite <- app_assoc.
Qed.

(** With the descriptor in hand and no memory for the socket object, the
    call has no defined result, whatever the rest of the world is (stated for
    a call without timeout, which makes a single [accept]). *)
Lemma tcp_socket_accept_no_memory (w : world) (sock : Z) (s : socket_t)
    (b : socket_base_t) (a : network_address_t) :
  listening sock w s b a →
  heap w !! NULL = None →
  let acc := sys_accept (fd b) (address_size a) in
  0 ≤ ret (env w (trace w) acc) →
  ret (env w (trace w ++ [acc]) call_memory_allocate) = 0 →
  tcp_socket_accept sock 0 w = inl InvalidPointer.
Proof.
  intros Hlistening Hnull acc Hfd Hoom.
  destruct (tcp_socket_accept_front w sock s b a 0 Hlistening)
    as (d & a' & Hfront & _ & Hfirst).
  destruct Hfirst as [-> Hcalls]; [by intros [] | done |].
  rewrite Hfront, Hcalls.
  by apply accept_finish_no_memory.
Qed.

(** C10: the input on which the code departs from the claim.  A peer is
    waiting on the listening socket and the allocator has no memory for the
    socket object: [tcp_socket_allocate] passes the null pointer to
    [tcp_socket_initialize], which writes through it, before
    [tcp_socket_accept] can test it. *)
Theorem tcp_socket_accept_out_of_memory :
  tcp_socket_accept 100 0 (example_world example_listener env_no_memory)
    = inl InvalidPointer.
Proof. vm_compute. reflexivity. Qed.

(** The same path with a table without a free slot: null is returned and the
    accepted descriptor 9 is never closed. *)
Example tcp_socket_accept_out_of_slots_example :
  let w' := run_world (tcp_socket_accept 100 0)
              (example_world_full env_peer_waiting) in
  trace w' = [sys_accept 5 16; call_memory_allocate] ∧
  state <$> sockbase_of 100 w' = Some SOCKETSTATE_LISTENING ∧
  heap w' = heap (example_world_full env_peer_waiting).
Proof. vm_compute. done. Qed.

(** ** Stream initialisation *)

(** C6: [_tcp_stream_initialize] marks the stream in-order and reliable and
    sets its path to the text tcp:// followed by the socket pointer as
    [PRIfixPTR] prints it; the pointer is what the caller holds for the
    socket. *)
Theorem tcp_stream_initialize_spec (format_fixptr : Z → string) (sock : Z)
    (stream : stream_t) :
  let stream' := _tcp_stream_initialize format_fixptr sock stream in
  inorder stream' = true ∧
  reliable stream' = true ∧
  path stream' = ("tcp://" ++ format_fixptr sock)%string ∧
  sequential stream' = sequential stream.
Proof. done. Qed.


(* ===================================================================== *)
(** ** Further properties of tcp.c *)
(* ===================================================================== *)

(** *** Running the functions on a socket with a base slot *)

Lemma tcp_socket_delay_run (w : world) (sock : Z) (s : socket_t)
    (b : socket_base_t) :
  has_base_slot sock w s b →
  tcp_socket_delay sock w = inr (flag_set (flags b) SOCKETFLAG_TCPDELAY, w).
Proof.
  intros (Hs & Hpos & Hb). unfold tcp_socket_delay.
  assert (Hle : (0 <=? base s) = true) by (apply Z.leb_le; lia).
  rewrite (bind_run _ _ _ _ _ (load_socket_run _ _ _ Hs)), Hle.
  by rewrite (bind_run _ _ _ _ _ (load_base_run _ _ _ Hpos Hb)).
Qed.

Lemma has_base_slot_insert (w w' : world) (sock : Z) (s : socket_t)
    (b b' : socket_base_t) :
  has_base_slot sock w s b →
  heap w' = heap w →
  _socket_base w' = <[Z.to_nat (base s) := b']> (_socket_base w) →
  has_base_slot sock w' s b'.
Proof.
  intros (Hs & Hpos & Hb) Hheap Htable.
  split; [by rewrite Hheap|]. split; [done|].
  rewrite Htable. apply list_lookup_insert_eq.
  by apply lookup_lt_Some in Hb.
Qed.

Lemma delay_flags_overwrite (f : Z) (d1 d2 : bool) :
  delay_flags (delay_flags f d1) d2 = delay_flags f d2.
Proof.
  unfold delay_flags, SOCKETFLAG_TCPDELAY.
  apply Z.bits_inj'. intros n Hn.
  destruct d1, d2;
    rewrite ?Z.lor_spec, ?Z.land_spec, ?Z.lnot_spec, ?Z.lor_spec, ?Z.land_spec,
      ?Z.lnot_spec by done;
    by destruct (Z.testbit f n), (Z.testbit 2 n).
Qed.

Lemma delay_flags_keeps_blocking (f : Z) (delay : bool) :
  flag_set (delay_flags f delay) SOCKETFLAG_BLOCKING
    = flag_set f SOCKETFLAG_BLOCKING.
Proof.
  rewrite !flag_set_bit0. by apply tcpdelay_update_other_bits.
Qed.

Lemma set_delay_world_facts (w : world) (sock : Z) (s : socket_t)
    (b : socket_base_t) (delay : bool) :
  has_base_slot sock w s b →
  ∃ w',
    tcp_socket_set_delay sock delay w = inr (tt, w') ∧
    heap w' = heap w ∧ log w' = log w ∧ env w' = env w ∧
    _socket_base w' = <[Z.to_nat (base s) :=
                          set_flags (delay_flags (flags b) delay) b]>
                        (_socket_base w) ∧
    trace w' = trace w ++
      (if fd b =? SOCKET_INVALID then []
       else [sys_setsockopt (fd b) IPPROTO_TCP TCP_NODELAY
               (if delay then 0 else 1)]).
Proof.
  intros Hslot. eexists. split; [by apply tcp_socket_set_delay_run|].
  simpl. destruct (fd b =? SOCKET_INVALID); simpl;
    rewrite ?app_nil_r; done.
Qed.

(** *** The delay flag read back *)

(** X1: after [tcp_socket_set_delay sock delay], [tcp_socket_delay sock]
    returns [delay]; reading the flag changes nothing. *)
Theorem tcp_socket_delay_after_set_delay (w : world) (sock : Z) (s : socket_t)
    (b : socket_base_t) (delay : bool) :
  has_base_slot sock w s b →
  ∃ w',
    tcp_socket_set_delay sock delay w = inr (tt, w') ∧
    tcp_socket_delay sock w' = inr (delay, w').
Proof.
  intros Hslot.
  destruct (set_delay_world_facts w sock s b delay Hslot)
    as (w' & Hrun & Hheap & _ & _ & Htable & _).
  exists w'. split; [done|].
  rewrite (tcp_socket_delay_run w' sock s
             (set_flags (delay_flags (flags b) delay) b)).
  - simpl. by rewrite delay_flags_set.
  - by apply (has_base_slot_insert w _ _ _ b).
Qed.

Lemma tcp_socket_delay_after_set_delay_witness :
  ∃ w',
    tcp_socket_set_delay 100 true
      (example_world example_listener env_peer_waiting) = inr (tt, w') ∧
    tcp_socket_delay 100 w' = inr (true, w').
Proof.
  apply (tcp_socket_delay_after_set_delay
           (example_world example_listener env_peer_waiting) 100 example_socket
           example_listener true).
  repeat split; simpl; try reflexivity; lia.
Defined.

(** X2: two calls of [tcp_socket_set_delay] leave the table and the socket
    objects as the second one alone would; and a call never changes the
    state, the descriptor or the blocking mode of the socket. *)
Theorem tcp_socket_set_delay_last_wins (w : world) (sock : Z) (s : socket_t)
    (b : socket_base_t) (d1 d2 : bool) :
  has_base_slot sock w s b →
  ∃ w1 w12 w2 b',
    tcp_socket_set_delay sock d1 w = inr (tt, w1) ∧
    tcp_socket_set_delay sock d2 w1 = inr (tt, w12) ∧
    tcp_socket_set_delay sock d2 w = inr (tt, w2) ∧
    _socket_base w12 = _socket_base w2 ∧
    heap w12 = heap w2 ∧
    sockbase_of sock w2 = Some b' ∧
    state b' = state b ∧ fd b' = fd b ∧
    socket_blocking sock w2 = socket_blocking sock w.
Proof.
  intros Hslot. pose proof Hslot as (Hs & Hpos & Hb).
  assert (Hlt : (base s <? 0) = false) by (apply Z.ltb_ge; lia).
  assert (Hlen : (Z.to_nat (base s) < length (_socket_base w))%nat)
    by (by apply lookup_lt_Some in Hb).
  destruct (set_delay_world_facts w sock s b d1 Hslot)
    as (w1 & Hrun1 & Hheap1 & _ & _ & Htable1 & _).
  set (b1 := set_flags (delay_flags (flags b) d1) b) in *.
  assert (Hslot1 : has_base_slot sock w1 s b1)
    by (by apply (has_base_slot_insert w _ _ _ b)).
  destruct (set_delay_world_facts w1 sock s b1 d2 Hslot1)
    as (w12 & Hrun12 & Hheap12 & _ & _ & Htable12 & _).
  destruct (set_delay_world_facts w sock s b d2 Hslot)
    as (w2 & Hrun2 & Hheap2 & _ & _ & Htable2 & _).
  exists w1, w12, w2, (set_flags (delay_flags (flags b) d2) b).
  split; [done|]. split; [done|]. split; [done|].
  split.
  { rewrite Htable12, Htable1, Htable2, list_insert_insert_eq.
    subst b1. simpl. by rewrite set_flags_set_flags, delay_flags_overwrite. }
  split; [congruence|].
  split.
  { unfold sockbase_of. rewrite Hheap2, Hs. simpl. rewrite Hlt, Htable2.
    by apply list_lookup_insert_eq. }
  split; [done|]. split; [done|].
  unfold socket_blocking. rewrite Hheap2, Hs, Hlt, Htable2, Hb.
  rewrite list_lookup_insert_eq by done. simpl.
  apply delay_flags_keeps_blocking.
Qed.

Lemma tcp_socket_set_delay_last_wins_witness :
  ∃ w1 w12 w2,
    tcp_socket_set_delay 100 true
      (example_world example_listener env_peer_waiting) = inr (tt, w1) ∧
    tcp_socket_set_delay 100 false w1 = inr (tt, w12) ∧
    tcp_socket_set_delay 100 false
      (example_world example_listener env_peer_waiting) = inr (tt, w2) ∧
    _socket_base w12 = _socket_base w2 ∧
    socket_blocking 100 w2 = true.
Proof.
  destruct (tcp_socket_set_delay_last_wins
              (example_world example_listener env_peer_waiting) 100
              example_socket example_listener true false)
    as (w1 & w12 & w2 & b' & H1 & H12 & H2 & Htable & _ & _ & _ & _ & Hmode).
  - repeat split; simpl; try reflexivity; lia.
  - exists w1, w12, w2. split; [exact H1|]. split; [exact H12|].
    split; [exact H2|]. split; [exact Htable|]. rewrite Hmode. reflexivity.
Defined.

(** *** Opening the descriptor *)

Lemma tcp_socket_open_run (w : world) (sock : Z) (s : socket_t)
    (b : socket_base_t) (fam : network_address_family_t) :
  has_base_slot sock w s b →
  let r := env w (trace w) (open_call fam) in
  let w1 := set_trace (trace w ++ [open_call fam]) w in
  let w2 := set_table (<[Z.to_nat (base s) := set_fd (ret r) b]>
                         (_socket_base w)) w1 in
  _tcp_socket_open sock fam w =
    if ret r <? 0 then
      inr (tt,
           set_table (<[Z.to_nat (base s) := set_fd SOCKET_INVALID b]>
                        (_socket_base w))
             (set_log (log w ++ [log_error "Unable to open TCP/IP socket"]) w1))
    else
      tcp_socket_set_delay sock (flag_set (flags b) SOCKETFLAG_TCPDELAY)
        (set_log (log w ++ [log_debug "Opened TCP/IP socket"]) w2).
Proof.
  intros (Hs & Hpos & Hb) r w1 w2.
  assert (Hlt : (base s <? 0) = false) by (apply Z.ltb_ge; lia).
  assert (Hlen : (Z.to_nat (base s) < length (_socket_base w))%nat)
    by (by apply lookup_lt_Some in Hb).
  unfold _tcp_socket_open.
  rewrite (bind_run _ _ _ _ _ (load_socket_run _ _ _ Hs)), Hlt.
  assert (Hcall : syscall (match fam with
                           | NETWORK_ADDRESSFAMILY_IPV6 =>
                               sys_socket AF_INET6 SOCK_STREAM IPPROTO_TCP
                           | _ => sys_socket AF_INET SOCK_STREAM IPPROTO_TCP
                           end) w = inr (r, w1)) by (by destruct fam).
  rewrite (bind_run _ _ _ _ _ Hcall).
  assert (Hmod : modify_base (base s) (set_fd (ret r)) w1 = inr (tt, w2)).
  { unfold modify_base.
    rewrite (bind_run _ _ _ _ _ (load_base_run w1 _ _ Hpos Hb)).
    by rewrite (store_base_run w1 _ b _ Hpos Hb). }
  rewrite (bind_run _ _ _ _ _ Hmod).
  assert (Hb2 : _socket_base w2 !! Z.to_nat (base s) = Some (set_fd (ret r) b))
    by (simpl; by rewrite list_lookup_insert_eq).
  rewrite (bind_run _ _ _ _ _ (load_base_run w2 _ _ Hpos Hb2)).
  simpl. destruct (ret r <? 0); [|done].
  unfold log_errorf, log_msg, modify_base.
  unfold mbind, M_bind, load_base, store_base. simpl.
  rewrite ?Hlt.
  repeat (rewrite list_lookup_insert_eq by done; simpl).
  by rewrite list_insert_insert_eq.
Qed.

Lemma tcp_socket_listen_invalid_fd (w : world) (sock : Z) (s : socket_t)
    (b : socket_base_t) :
  has_base_slot sock w s b →
  fd b = SOCKET_INVALID →
  tcp_socket_listen sock w = inr (false, w).
Proof.
  intros (Hs & Hpos & Hb) Hfd.
  assert (Hlt : (base s <? 0) = false) by (apply Z.ltb_ge; lia).
  unfold tcp_socket_listen.
  rewrite (bind_run _ _ _ _ _ (load_socket_run _ _ _ Hs)), Hlt.
  rewrite (bind_run _ _ _ _ _ (load_base_run _ _ _ Hpos Hb)).
  rewrite Hfd. simpl. by rewrite orb_true_r.
Qed.

(** X3: when the system's [socket] fails, [_tcp_socket_open] stores the
    invalid descriptor, logs one error and makes no further call (TCP_NODELAY
    is not touched); the state and the flags are kept.  A socket left that
    way is refused by [tcp_socket_listen] without a system call. *)
Theorem tcp_socket_open_failure (w : world) (sock : Z) (s : socket_t)
    (b : socket_base_t) (fam : network_address_family_t) :
  has_base_slot sock w s b →
  ret (env w (trace w) (open_call fam)) < 0 →
  ∃ w',
    _tcp_socket_open sock fam w = inr (tt, w') ∧
    sockbase_of sock w' = Some (set_fd SOCKET_INVALID b) ∧
    trace w' = trace w ++ [open_call fam] ∧
    log w' = log w ++ [log_error "Unable to open TCP/IP socket"] ∧
    heap w' = heap w ∧
    tcp_socket_listen sock w' = inr (false, w').
Proof.
  intros Hslot Hfail. pose proof Hslot as (Hs & Hpos & Hb).
  rewrite (tcp_socket_open_run w sock s b fam Hslot).
  apply Z.ltb_lt in Hfail. rewrite Hfail.
  eexists. split; [done|].
  match goal with |- context [sockbase_of sock ?x] => set (w' := x) end.
  assert (Hslot' : has_base_slot sock w' s (set_fd SOCKET_INVALID b))
    by (by apply (has_base_slot_insert w _ _ _ b)).
  split; [by apply (has_base_slot_sockbase_of _ _ s)|].
  repeat split; try done.
  by apply (tcp_socket_listen_invalid_fd w' sock s (set_fd SOCKET_INVALID b)).
Qed.

Lemma tcp_socket_open_failure_witness :
  ∃ w',
    _tcp_socket_open 100 NETWORK_ADDRESSFAMILY_IPV4
      (example_world example_closed env_all_fail) = inr (tt, w') ∧
    sockbase_of 100 w' = Some example_closed ∧
    trace w' = [sys_socket AF_INET SOCK_STREAM IPPROTO_TCP] ∧
    tcp_socket_listen 100 w' = inr (false, w').
Proof.
  destruct (tcp_socket_open_failure
              (example_world example_closed env_all_fail) 100 example_socket
              example_closed NETWORK_ADDRESSFAMILY_IPV4)
    as (w' & Hrun & Hbase & Htrace & _ & _ & Hlisten).
  - repeat split; simpl; try reflexivity; lia.
  - simpl. lia.
  - exists w'. split; [exact Hrun|]. split; [exact Hbase|].
    split; [exact Htrace | exact Hlisten].
Defined.

(** X4: a delay setting made while the socket has no descriptor makes no
    system call and is applied when the socket is opened: once [socket]
    returns a descriptor, [_tcp_socket_open] sets TCP_NODELAY on it to 0 for
    [delay = true] and to 1 for [delay = false], and [tcp_socket_delay] still
    returns [delay]. *)
Theorem tcp_socket_delay_applied_on_open (w : world) (sock : Z) (s : socket_t)
    (b : socket_base_t) (delay : bool) (fam : network_address_family_t) :
  has_base_slot sock w s b →
  fd b = SOCKET_INVALID →
  let r := env w (trace w) (open_call fam) in
  0 ≤ ret r →
  ∃ w1 w2,
    tcp_socket_set_delay sock delay w = inr (tt, w1) ∧
    trace w1 = trace w ∧
    _tcp_socket_open sock fam w1 = inr (tt, w2) ∧
    trace w2 = trace w ++
      [open_call fam;
       sys_setsockopt (ret r) IPPROTO_TCP TCP_NODELAY (if delay then 0 else 1)] ∧
    fd <$> sockbase_of sock w2 = Some (ret r) ∧
    tcp_socket_delay sock w2 = inr (delay, w2).
Proof.
  intros Hslot Hfd r Hret. pose proof Hslot as (Hs & Hpos & Hb).
  assert (Hlen : (Z.to_nat (base s) < length (_socket_base w))%nat)
    by (by apply lookup_lt_Some in Hb).
  destruct (set_delay_world_facts w sock s b delay Hslot)
    as (w1 & Hrun1 & Hheap1 & Hlog1 & Henv1 & Htable1 & Htrace1).
  rewrite Hfd in Htrace1. simpl in Htrace1. rewrite app_nil_r in Htrace1.
  set (b1 := set_flags (delay_flags (flags b) delay) b) in *.
  assert (Hslot1 : has_base_slot sock w1 s b1)
    by (by apply (has_base_slot_insert w _ _ _ b)).
  exists w1. rewrite (tcp_socket_open_run w1 sock s b1 fam Hslot1).
  rewrite Henv1, Htrace1. fold r.
  destruct (Z.ltb_spec (ret r) 0); [lia|].
  set (b2 := set_fd (ret r) b1).
  match goal with
  | |- context [tcp_socket_set_delay sock ?d (set_log ?l ?x)] =>
      set (w3 := set_log l x); set (d' := d)
  end.
  assert (Hd' : d' = delay) by (subst d' b1; simpl; apply delay_flags_set).
  assert (Hslot3 : has_base_slot sock w3 s b2).
  { by apply (has_base_slot_insert w1 _ _ _ b1). }
  destruct (set_delay_world_facts w3 sock s b2 d' Hslot3)
    as (w2 & Hrun2 & Hheap2 & _ & _ & Htable2 & Htrace2).
  exists w2. split; [done|]. split; [done|]. split; [done|].
  assert (Hvalid : (fd b2 =? SOCKET_INVALID) = false)
    by (apply Z.eqb_neq; unfold SOCKET_INVALID; simpl; lia).
  rewrite Hvalid, Hd' in Htrace2.
  set (b3 := set_flags (delay_flags (flags b2) d') b2) in *.
  assert (Hslot2 : has_base_slot sock w2 s b3)
    by (by apply (has_base_slot_insert w3 _ _ _ b2)).
  split.
  { rewrite Htrace2. subst w3. simpl. by rewrite <- app_assoc. }
  split; [by rewrite (has_base_slot_sockbase_of _ _ s b3)|].
  rewrite (tcp_socket_delay_run w2 sock s b3 Hslot2).
  subst b3. simpl. by rewrite delay_flags_set, Hd'.
Qed.

Lemma tcp_socket_delay_applied_on_open_witness :
  ∃ w1 w2,
    tcp_socket_set_delay 100 true
      (example_world example_closed env_peer_waiting) = inr (tt, w1) ∧
    trace w1 = [] ∧
    _tcp_socket_open 100 NETWORK_ADDRESSFAMILY_IPV6 w1 = inr (tt, w2) ∧
    trace w2 = [sys_socket AF_INET6 SOCK_STREAM IPPROTO_TCP;
                sys_setsockopt 0 IPPROTO_TCP TCP_NODELAY 0] ∧
    tcp_socket_delay 100 w2 = inr (true, w2).
Proof.
  destruct (tcp_socket_delay_applied_on_open
              (example_world example_closed env_peer_waiting) 100
              example_socket example_closed true NETWORK_ADDRESSFAMILY_IPV6)
    as (w1 & w2 & Hrun1 & Htrace1 & Hrun2 & Htrace2 & _ & Hdelay).
  - repeat split; simpl; try reflexivity; lia.
  - reflexivity.
  - simpl. lia.
  - exists w1, w2. split; [exact Hrun1|]. split; [exact Htrace1|].
    split; [exact Hrun2|]. split; [exact Htrace2 | exact Hdelay].
Defined.

(** *** A socket fresh from the allocator *)

Lemma tcp_without_base_run (w : world) (sock : Z) (s : socket_t)
    (timeoutms : Z) (fam : network_address_family_t) :
  heap w !! sock = Some s →
  base s < 0 →
  tcp_socket_listen sock w = inr (false, w) ∧
  tcp_socket_accept sock timeoutms w = inr (NULL, w) ∧
  tcp_socket_delay sock w = inr (false, w) ∧
  _tcp_socket_open sock fam w = inr (tt, w).
Proof.
  intros Hs Hneg.
  assert (Hlt : (base s <? 0) = true) by (apply Z.ltb_lt; lia).
  assert (Hle : (0 <=? base s) = false) by (apply Z.leb_gt; lia).
  unfold tcp_socket_listen, tcp_socket_accept, tcp_socket_delay,
    _tcp_socket_open.
  by rewrite !(bind_run _ _ _ _ _ (load_socket_run _ _ _ Hs)), Hlt, Hle.
Qed.

(** X5: when the allocator has memory, [tcp_socket_allocate] returns a
    non-null address that held no socket, leaves every other socket object
    and the table alone, and the new object has no base slot, no address and
    the TCP functions.  Such a socket is inert: listen, accept, the delay
    query and [_tcp_socket_open] on it return false, null, false and nothing
    without any effect. *)
Theorem tcp_socket_allocate_fresh (w : world) (timeoutms : Z)
    (fam : network_address_family_t) :
  ret (env w (trace w) call_memory_allocate) ≠ 0 →
  ∃ p w',
    tcp_socket_allocate w = inr (p, w') ∧
    p ≠ NULL ∧
    heap w !! p = None ∧
    heap w' !! p = Some new_tcp_socket ∧
    (∀ q, q ≠ p → heap w' !! q = heap w !! q) ∧
    _socket_base w' = _socket_base w ∧
    trace w' = trace w ++ [call_memory_allocate] ∧
    tcp_socket_listen p w' = inr (false, w') ∧
    tcp_socket_accept p timeoutms w' = inr (NULL, w') ∧
    tcp_socket_delay p w' = inr (false, w') ∧
    _tcp_socket_open p fam w' = inr (tt, w').
Proof.
  intros Hmem. destruct (next_socket_fresh w) as [Hnz Hfresh].
  eexists _, _. split; [by apply tcp_socket_allocate_run|].
  split; [done|]. split; [done|].
  split; [simpl; by rewrite lookup_insert_eq|].
  split; [intros q Hq; simpl; by rewrite lookup_insert_ne|].
  split; [done|]. split; [done|].
  apply (tcp_without_base_run _ _ new_tcp_socket).
  - simpl. by rewrite lookup_insert_eq.
  - simpl. lia.
Qed.

Lemma tcp_socket_allocate_fresh_witness :
  ∃ p w',
    tcp_socket_allocate (example_world example_listener env_peer_waiting)
      = inr (p, w') ∧
    p ≠ NULL ∧
    heap w' !! p = Some new_tcp_socket ∧
    tcp_socket_listen p w' = inr (false, w').
Proof.
  destruct (tcp_socket_allocate_fresh
              (example_world example_listener env_peer_waiting) 0
              NETWORK_ADDRESSFAMILY_IPV4)
    as (p & w' & Hrun & Hnz & _ & Hnew & _ & _ & _ & Hlisten & _).
  - simpl. lia.
  - exists p, w'. split; [exact Hrun|]. split; [exact Hnz|].
    split; [exact Hnew | exact Hlisten].
Defined.

(** *** Listening *)

Lemma tcp_socket_listen_run (w : world) (sock : Z) (s : socket_t)
    (b : socket_base_t) (a : network_address_t) :
  has_base_slot sock w s b →
  state b = SOCKETSTATE_NOTCONNECTED →
  fd b ≠ SOCKET_INVALID →
  address_local s = Some a →
  let c := sys_listen (fd b) SOMAXCONN in
  let w1 := set_trace (trace w ++ [c]) w in
  tcp_socket_listen sock w =
    if ret (env w (trace w) c) =? 0 then
      inr (true,
           set_table (<[Z.to_nat (base s) :=
                          set_state SOCKETSTATE_LISTENING b]> (_socket_base w))
             (set_log (log w ++ [log_info "Listening on TCP/IP socket"]) w1))
    else
      inr (false,
           set_log (log w ++ [log_error "Unable to listen on TCP/IP socket"])
             w1).
Proof.
  intros (Hs & Hpos & Hb) Hst Hfd Hal c w1.
  assert (Hlt : (base s <? 0) = false) by (apply Z.ltb_ge; lia).
  unfold tcp_socket_listen.
  rewrite (bind_run _ _ _ _ _ (load_socket_run _ _ _ Hs)), Hlt.
  rewrite (bind_run _ _ _ _ _ (load_base_run _ _ _ Hpos Hb)).
  rewrite (accept_guard_passes s b a _ Hst Hfd Hal).
  unfold mbind at 1, M_bind at 1, syscall at 1. fold c.
  destruct (ret (env w (trace w) c) =? 0).
  - unfold log_infof, log_msg, modify_base.
    unfold mbind, M_bind, load_base, store_base, mret, M_ret.
    repeat (simpl; rewrite ?Hlt, ?Hb). done.
  - done.
Qed.

(** X6: a successful [tcp_socket_listen] makes the one call
    [listen(fd, SOMAXCONN)], logs one info entry and leaves the socket in
    exactly the condition [tcp_socket_accept] requires on entry (Listening,
    same descriptor, same local address); a second [tcp_socket_listen] on it
    returns false without a system call. *)
Theorem tcp_socket_listen_then_accept (w : world) (sock : Z) (s : socket_t)
    (b : socket_base_t) (a : network_address_t) :
  has_base_slot sock w s b →
  state b = SOCKETSTATE_NOTCONNECTED →
  fd b ≠ SOCKET_INVALID →
  address_local s = Some a →
  ret (env w (trace w) (sys_listen (fd b) SOMAXCONN)) = 0 →
  ∃ w',
    tcp_socket_listen sock w = inr (true, w') ∧
    listening sock w' s (set_state SOCKETSTATE_LISTENING b) a ∧
    trace w' = trace w ++ [sys_listen (fd b) SOMAXCONN] ∧
    log w' = log w ++ [log_info "Listening on TCP/IP socket"] ∧
    heap w' = heap w ∧
    tcp_socket_listen sock w' = inr (false, w').
Proof.
  intros Hslot Hst Hfd Hal Hret. pose proof Hslot as (Hs & Hpos & Hb).
  assert (Hlt : (base s <? 0) = false) by (apply Z.ltb_ge; lia).
  rewrite (tcp_socket_listen_run w sock s b a Hslot Hst Hfd Hal).
  apply Z.eqb_eq in Hret. rewrite Hret.
  eexists. split; [done|].
  match goal with |- context [listening sock ?x] => set (w' := x) end.
  assert (Hslot' : has_base_slot sock w' s (set_state SOCKETSTATE_LISTENING b))
    by (by apply (has_base_slot_insert w _ _ _ b)).
  split; [done|]. split; [done|]. split; [done|]. split; [done|].
  destruct Hslot' as (Hs' & _ & Hb').
  unfold tcp_socket_listen.
  rewrite (bind_run _ _ _ _ _ (load_socket_run _ _ _ Hs')), Hlt.
  by rewrite (bind_run _ _ _ _ _ (load_base_run _ _ _ Hpos Hb')).
Qed.

Lemma tcp_socket_listen_then_accept_witness :
  ∃ w',
    tcp_socket_listen 100 (example_world example_bound env_peer_waiting)
      = inr (true, w') ∧
    listening 100 w' example_socket
      (set_state SOCKETSTATE_LISTENING example_bound) example_address ∧
    tcp_socket_listen 100 w' = inr (false, w').
Proof.
  destruct (tcp_socket_listen_then_accept
              (example_world example_bound env_peer_waiting) 100
              example_socket example_bound example_address)
    as (w' & Hrun & Hlistening & _ & _ & _ & Hagain).
  - repeat split; simpl; try reflexivity; lia.
  - reflexivity.
  - discriminate.
  - reflexivity.
  - reflexivity.
  - exists w'. split; [exact Hrun|]. split; [exact Hlistening | exact Hagain].
Defined.

(** X7: when the system's [listen] fails, [tcp_socket_listen] returns false
    and logs one error; the table and the socket objects are untouched, so
    the socket still meets the entry conditions and the call can be made
    again. *)
Theorem tcp_socket_listen_failure (w : world) (sock : Z) (s : socket_t)
    (b : socket_base_t) (a : network_address_t) :
  has_base_slot sock w s b →
  state b = SOCKETSTATE_NOTCONNECTED →
  fd b ≠ SOCKET_INVALID →
  address_local s = Some a →
  ret (env w (trace w) (sys_listen (fd b) SOMAXCONN)) ≠ 0 →
  ∃ w',
    tcp_socket_listen sock w = inr (false, w') ∧
    _socket_base w' = _socket_base w ∧
    heap w' = heap w ∧
    trace w' = trace w ++ [sys_listen (fd b) SOMAXCONN] ∧
    log w' = log w ++ [log_error "Unable to listen on TCP/IP socket"] ∧
    listen_precondition sock w'.
Proof.
  intros Hslot Hst Hfd Hal Hret.
  rewrite (tcp_socket_listen_run w sock s b a Hslot Hst Hfd Hal).
  apply Z.eqb_neq in Hret. rewrite Hret.
  eexists. split; [done|]. repeat split; try done.
  exists s, b. repeat split; try done; [apply Hslot.. | congruence].
Qed.

Lemma tcp_socket_listen_failure_witness :
  ∃ w',
    tcp_socket_listen 100 (example_world example_bound env_all_fail)
      = inr (false, w') ∧
    _socket_base w' = [example_bound; zero_base] ∧
    log w' = [log_error "Unable to listen on TCP/IP socket"].
Proof.
  destruct (tcp_socket_listen_failure
              (example_world example_bound env_all_fail) 100
              example_socket example_bound example_address)
    as (w' & Hrun & Htable & _ & _ & Hlog & _).
  - repeat split; simpl; try reflexivity; lia.
  - reflexivity.
  - discriminate.
  - reflexivity.
  - discriminate.
  - exists w'. split; [exact Hrun|]. split; [exact Htable | exact Hlog].
Defined.

(** *** The worlds an accept can end in *)

Lemma tcp_socket_accept_returns (w : world) (sock : Z) (s : socket_t)
    (b : socket_base_t) (a : network_address_t) (timeoutms : Z) (r : Z)
    (w' : world) :
  listening sock w s b a →
  heap w !! NULL = None →
  tcp_socket_accept sock timeoutms w = inr (r, w') →
  let calls := accept_calls (env w) (trace w) (fd b) (address_size a) timeoutms
                 (flag_set (flags b) SOCKETFLAG_BLOCKING) in
  let wm := set_trace (trace w ++ calls) w in
  (r = NULL ∧
   w' = set_log (log w ++ [log_debug "Accept returned invalid socket fd"]) wm)
  ∨ (r = NULL ∧ free_slot (_socket_base w) = None ∧
     w' = set_log (log w ++
                     [log_debug "Unable to allocate socket base for accepted fd"])
            (set_trace (trace wm ++ [call_memory_allocate]) wm))
  ∨ (∃ d a' j bj,
       0 ≤ d ∧ free_slot (_socket_base w) = Some (j, bj) ∧
       r = next_socket w ∧
       w' = {| _socket_base := <[j := accepted_base r d]> (_socket_base w);
               heap := <[r := accepted_socket j a'
                                (env w (trace wm ++ [call_memory_allocate])
                                   (sys_getsockname d))]> (heap w);
               trace := trace wm ++ [call_memory_allocate; sys_getsockname d];
               log := log w ++
                        [log_info "Accepted connection on TCP/IP socket"];
               env := env w |}).
Proof.
  intros Hlistening Hnull Hrun calls wm.
  destruct (tcp_socket_accept_front w sock s b a timeoutms Hlistening)
    as (d & a' & Hfront & _).
  fold calls in Hfront. fold wm in Hfront. rewrite Hfront in Hrun.
  destruct (Z.lt_ge_cases d 0) as [Hneg | Hd].
  { rewrite (accept_finish_invalid wm d a' Hneg) in Hrun.
    injection Hrun as <- <-. by left. }
  destruct (decide (ret (env wm (trace wm) call_memory_allocate) = 0))
    as [Hoom | Hmem].
  { by rewrite (accept_finish_no_memory wm d a' Hd Hnull Hoom) in Hrun. }
  destruct (free_slot (_socket_base wm)) as [[j bj]|] eqn:Hfree.
  - rewrite (accept_finish_success wm d a' j bj Hd Hmem Hfree) in Hrun.
    injection Hrun as <- <-. right; right. by exists d, a', j, bj.
  - rewrite (accept_finish_no_slot wm d a' Hd Hmem Hfree) in Hrun.
    injection Hrun as <- <-. right; left. done.
Qed.

Lemma tcp_socket_listen_refused (w : world) (sock : Z) (s : socket_t)
    (b : socket_base_t) :
  has_base_slot sock w s b →
  state b ≠ SOCKETSTATE_NOTCONNECTED ∨ fd b = SOCKET_INVALID
    ∨ address_local s = None →
  tcp_socket_listen sock w = inr (false, w).
Proof.
  intros (Hs & Hpos & Hb) Hbad.
  assert (Hlt : (base s <? 0) = false) by (apply Z.ltb_ge; lia).
  unfold tcp_socket_listen.
  rewrite (bind_run _ _ _ _ _ (load_socket_run _ _ _ Hs)), Hlt.
  rewrite (bind_run _ _ _ _ _ (load_base_run _ _ _ Hpos Hb)).
  destruct (_ || _ || _) eqn:Hguard; [done|].
  apply listen_guard_false in Hguard as (? & ? & ?).
  by destruct Hbad as [?|[?|?]].
Qed.

(** X8: an accept that returns leaves its listening socket as it was: the
    same socket object, and a base record with the same state (Listening),
    descriptor and flags, so that the socket can accept again.  No base slot
    in use is modified and the table keeps its length; the only slot that can
    change is a free one, taken for the accepted socket. *)
Theorem tcp_socket_accept_keeps_listener (w : world) (sock : Z) (s : socket_t)
    (b : socket_base_t) (a : network_address_t) (timeoutms : Z) (r : Z)
    (w' : world) :
  listening sock w s b a →
  heap w !! NULL = None →
  object b ≠ NULL →
  tcp_socket_accept sock timeoutms w = inr (r, w') →
  listening sock w' s b a ∧
  heap w' !! NULL = None ∧
  length (_socket_base w') = length (_socket_base w) ∧
  (∀ i bi, _socket_base w !! i = Some bi → object bi ≠ NULL →
           _socket_base w' !! i = Some bi).
Proof.
  intros Hlistening Hnull Hused Hrun.
  pose proof Hlistening as ((Hs & Hpos & Hb) & Hst & Hfd & Hal).
  destruct (tcp_socket_accept_returns w sock s b a timeoutms r w'
              Hlistening Hnull Hrun)
    as [[_ ->] | [(_ & _ & ->) | (d & a' & j & bj & Hd & Hfree & Hr & ->)]];
    [done | done |].
  pose proof Hfree as (Hj & Hjfree & _)%list_find_Some.
  destruct (next_socket_fresh w) as [Hnz Hfresh]. rewrite <- Hr in Hnz, Hfresh.
  assert (Hother : ∀ i bi, _socket_base w !! i = Some bi → object bi ≠ NULL →
                           <[j := accepted_base r d]> (_socket_base w) !! i
                             = Some bi).
  { intros i bi Hi Hobj. rewrite list_lookup_insert_ne; [done|].
    intros ->. simpl in Hjfree. congruence. }
  split.
  { split; [|done]. split; [|split; [done|]]; simpl.
    - rewrite lookup_insert_ne; [done|]. intros Heq. congruence.
    - by apply Hother. }
  split.
  { simpl. rewrite lookup_insert_ne; [done|]. by intros ->. }
  split; [simpl; by rewrite length_insert | done].
Qed.

Lemma tcp_socket_accept_keeps_listener_witness :
  let w := example_world example_listener env_peer_waiting in
  let w' := run_world (tcp_socket_accept 100 250) w in
  listening 100 w' example_socket example_listener example_address ∧
  length (_socket_base w') = 2%nat.
Proof.
  intros w w'.
  destruct (tcp_socket_accept_keeps_listener w 100 example_socket
              example_listener example_address 250 101 w')
    as (Hlistening & _ & Hlen & _).
  - repeat split; simpl; try reflexivity; try lia; discriminate.
  - reflexivity.
  - discriminate.
  - vm_compute. reflexivity.
  - split; [exact Hlistening | exact Hlen].
Defined.

(** X9: the socket an accept returns is connected, not listening: a
    [tcp_socket_listen] on it returns false, and a [tcp_socket_accept] on it
    returns null and logs the error, both without a system call. *)
Theorem tcp_socket_accepted_is_not_listener (w : world) (sock : Z)
    (s : socket_t) (b : socket_base_t) (a : network_address_t)
    (timeoutms timeoutms' : Z) (r : Z) (w' : world) :
  listening sock w s b a →
  heap w !! NULL = None →
  tcp_socket_accept sock timeoutms w = inr (r, w') →
  r ≠ NULL →
  tcp_socket_listen r w' = inr (false, w') ∧
  tcp_socket_accept r timeoutms' w' =
    inr (NULL,
         set_log (log w' ++
            [log_error "Unable to accept on a non-listening/unbound TCP/IP socket"])
           w').
Proof.
  intros Hlistening Hnull Hrun Hr.
  destruct (tcp_socket_accept_returns w sock s b a timeoutms r w'
              Hlistening Hnull Hrun)
    as [[? _] | [(? & _) | (d & a' & j & bj & Hd & Hfree & Hp & Hw')]];
    [done | done |].
  pose proof Hfree as (Hj & _ & _)%list_find_Some.
  apply lookup_lt_Some in Hj.
  assert (Hslot : ∃ acc, has_base_slot r w' acc (accepted_base r d)).
  { rewrite Hw'. eexists.
    split; [simpl; by rewrite lookup_insert_eq|].
    split; [simpl; lia|]. simpl.
    by rewrite Nat2Z.id, list_lookup_insert_eq. }
  destruct Hslot as [acc Hslot].
  split.
  - apply (tcp_socket_listen_refused _ _ _ _ Hslot). by left.
  - apply (tcp_socket_accept_guard_run _ _ _ _ _ Hslot). by left.
Qed.

Lemma tcp_socket_accepted_is_not_listener_witness :
  let w' := run_world (tcp_socket_accept 100 250)
              (example_world example_listener env_peer_waiting) in
  tcp_socket_listen 101 w' = inr (false, w') ∧
  ∃ w'', tcp_socket_accept 101 0 w' = inr (NULL, w'').
Proof.
  intros w'.
  destruct (tcp_socket_accepted_is_not_listener
              (example_world example_listener env_peer_waiting) 100
              example_socket example_listener example_address 250 0 101 w')
    as [Hlisten Haccept].
  - repeat split; simpl; try reflexivity; try lia; discriminate.
  - reflexivity.
  - vm_compute. reflexivity.
  - discriminate.
  - split; [exact Hlisten|]. eexists. exact Haccept.
Defined.

(** *** The calls an accept makes *)

Lemma tcp_socket_accept_new_calls (w : world) (sock : Z) (s : socket_t)
    (b : socket_base_t) (a : network_address_t) (timeoutms : Z) (r : Z)
    (w' : world) :
  listening sock w s b a →
  heap w !! NULL = None →
  tcp_socket_accept sock timeoutms w = inr (r, w') →
  ∃ rest,
    new_calls w w' =
      accept_calls (env w) (trace w) (fd b) (address_size a) timeoutms
        (flag_set (flags b) SOCKETFLAG_BLOCKING) ++ rest ∧
    (rest = [] ∨ rest = [call_memory_allocate]
     ∨ ∃ d, rest = [call_memory_allocate; sys_getsockname d]).
Proof.
  intros Hlistening Hnull Hrun. unfold new_calls.
  destruct (tcp_socket_accept_returns w sock s b a timeoutms r w'
              Hlistening Hnull Hrun)
    as [[_ ->] | [(_ & _ & ->) | (d & a' & j & bj & _ & _ & _ & ->)]]; simpl.
  - exists []. rewrite app_nil_r, drop_app_length. by split; [|left].
  - exists [call_memory_allocate].
    rewrite <- app_assoc, drop_app_length. by split; [|right; left].
  - exists [call_memory_allocate; sys_getsockname d].
    rewrite <- app_assoc, drop_app_length. split; [done|]. right; right.
    by exists d.
Qed.

(** Splits every conditional of the goal. *)
Ltac split_conditionals :=
  repeat match goal with
         | |- context [if ?c then _ else _] => destruct c eqn:?
         end.

(** X10: an accept that returns on a listening socket has called the
    system's [accept] once or twice and [select] at most once; a second
    [accept] is made only after a [select]: in the order they were made, its
    [accept] and [select] calls are [accept], or [accept; select], or
    [accept; select; accept], each on the listening descriptor; without a
    timeout there is no [select] and exactly one [accept].  Every [select]
    waits on the listening descriptor alone, with a time limit that is
    [timeoutms] exactly: seconds and microseconds add up to [timeoutms]
    milliseconds and the microseconds stay below one second. *)
Theorem tcp_socket_accept_bounded_wait (w : world) (sock : Z) (s : socket_t)
    (b : socket_base_t) (a : network_address_t) (timeoutms : Z) (r : Z)
    (w' : world) :
  listening sock w s b a →
  heap w !! NULL = None →
  tcp_socket_accept sock timeoutms w = inr (r, w') →
  let new := new_calls w w' in
  (1 ≤ count_calls is_accept new ≤ 2)%nat ∧
  (count_calls is_select new ≤ 1)%nat ∧
  (count_calls is_accept new = 2%nat → count_calls is_select new = 1%nat) ∧
  (timeoutms ≤ 0 →
   count_calls is_select new = 0%nat ∧ count_calls is_accept new = 1%nat) ∧
  (∀ n rd ex sec usec,
      sys_select n rd ex sec usec ∈ new →
      n = fd b + 1 ∧ rd = [fd b] ∧ ex = [fd b] ∧
      0 ≤ usec < 1000000 ∧
      sec * 1000000 + usec = timeoutms * 1000) ∧
  (let acc := sys_accept (fd b) (address_size a) in
   let sel := sys_select (fd b + 1) [fd b] [fd b]
                (timeoutms / 1000) ((timeoutms mod 1000) * 1000) in
   let waits := List.filter (λ c, is_accept c || is_select c) new in
   (waits = [acc] ∨ waits = [acc; sel] ∨ waits = [acc; sel; acc]) ∧
   (timeoutms ≤ 0 → waits = [acc])).
Proof.
  intros Hlistening Hnull Hrun new.
  destruct (tcp_socket_accept_new_calls w sock s b a timeoutms r w'
              Hlistening Hnull Hrun) as (rest & Hnew & Hrest).
  subst new. rewrite Hnew. clear Hnew Hrun.
  assert (Htime : 0 < timeoutms →
                  0 ≤ timeoutms `mod` 1000 * 1000 < 1000000 ∧
                  timeoutms `div` 1000 * 1000000
                    + timeoutms `mod` 1000 * 1000 = timeoutms * 1000).
  { intros Hpos. pose proof (Z.div_mod timeoutms 1000).
    pose proof (Z.mod_pos_bound timeoutms 1000). lia. }
  unfold accept_calls, accept_wait_calls.
  destruct (Z.ltb_spec 0 timeoutms) as [Hpos | Hzero]; simpl;
    rewrite ?andb_false_r; simpl;
    destruct Hrest as [-> | [-> | [d ->]]];
    split_conditionals; simpl;
    (split; [unfold count_calls; simpl; lia|]);
    (split; [unfold count_calls; simpl; lia|]);
    (split; [unfold count_calls; simpl; intros; lia|]);
    (split; [unfold count_calls; simpl; intros; lia|]);
    (split;
     [ intros n rd ex sec usec Hin;
       repeat (apply elem_of_cons in Hin as [Hin | Hin]; [try discriminate|]);
       try (by apply elem_of_nil in Hin);
       try (injection Hin as -> -> -> -> ->; repeat split; try done;
            apply Htime; lia)
     | split; [auto | intros; first [done | lia]] ]).
Qed.

Lemma tcp_socket_accept_bounded_wait_witness :
  let w := example_world example_listener env_no_peer in
  let w' := run_world (tcp_socket_accept 100 2500) w in
  count_calls is_accept (new_calls w w') = 1%nat ∧
  sys_select 6 [5] [5] 2 500000 ∈ new_calls w w' ∧
  2 * 1000000 + 500000 = 2500 * 1000.
Proof.
  intros w w'.
  destruct (tcp_socket_accept_bounded_wait w 100 example_socket
              example_listener example_address 2500 NULL w')
    as (_ & _ & _ & _ & Hselect & _).
  - repeat split; simpl; try reflexivity; try lia; discriminate.
  - reflexivity.
  - vm_compute. reflexivity.
  - assert (Hin : sys_select 6 [5] [5] 2 500000 ∈ new_calls w w').
    { vm_compute. do 2 apply list_elem_of_further. apply list_elem_of_here. }
    split; [vm_compute; reflexivity|]. split; [exact Hin|].
    apply (Hselect _ _ _ _ _ Hin).
Defined.

(** X11: the blocking mode of the descriptor is switched only for a blocking
    socket given a timeout, and then exactly twice, off and back on: the mode
    calls are, in order, the switch to non-blocking and the switch to
    blocking, both on the listening descriptor; the switch off is the first
    call made, only [accept] and [select] calls (at least one) lie between
    the two, and none of these kinds follows the switch back.  A call without
    timeout, or on a non-blocking socket, never switches the mode. *)
Theorem tcp_socket_accept_mode_switches (w : world) (sock : Z) (s : socket_t)
    (b : socket_base_t) (a : network_address_t) (timeoutms : Z) (r : Z)
    (w' : world) :
  listening sock w s b a →
  heap w !! NULL = None →
  tcp_socket_accept sock timeoutms w = inr (r, w') →
  let off := sys_set_blocking (fd b) false in
  let on := sys_set_blocking (fd b) true in
  let toggle := (0 <? timeoutms) && flag_set (flags b) SOCKETFLAG_BLOCKING in
  count_calls is_set_blocking (new_calls w w') =
    (if toggle then 2%nat else 0%nat) ∧
  List.filter is_set_blocking (new_calls w w') =
    (if toggle then [off; on] else []) ∧
  (toggle = true →
   ∃ mid rest,
     new_calls w w' = off :: mid ++ on :: rest ∧
     mid ≠ [] ∧
     Forall (λ c, is_accept c || is_select c = true) mid ∧
     Forall (λ c, is_accept c || is_select c || is_set_blocking c = false)
       rest).
Proof.
  intros Hlistening Hnull Hrun off on toggle.
  destruct (tcp_socket_accept_new_calls w sock s b a timeoutms r w'
              Hlistening Hnull Hrun) as (rest & Hnew & Hrest).
  rewrite Hnew. clear Hnew Hrun.
  unfold accept_calls. fold toggle. fold off. fold on.
  split; [|split].
  - unfold accept_wait_calls.
    destruct toggle; destruct Hrest as [-> | [-> | [d ->]]];
      split_conditionals; done.
  - unfold accept_wait_calls.
    destruct toggle; destruct Hrest as [-> | [-> | [d ->]]];
      split_conditionals; done.
  - intros ->.
    exists (accept_wait_calls (env w) (trace w ++ [off]) (fd b) (address_size a)
              timeoutms), rest.
    split; [simpl; by rewrite <- app_assoc|].
    split; [unfold accept_wait_calls; split_conditionals; done|].
    split.
    + unfold accept_wait_calls. split_conditionals; by repeat constructor.
    + destruct Hrest as [-> | [-> | [d ->]]]; by repeat constructor.
Qed.

Lemma tcp_socket_accept_mode_switches_witness :
  let w := example_world example_listener env_peer_waiting in
  count_calls is_set_blocking
    (new_calls w (run_world (tcp_socket_accept 100 0) w)) = 0%nat ∧
  List.filter is_set_blocking
    (new_calls w (run_world (tcp_socket_accept 100 250) w))
    = [sys_set_blocking 5 false; sys_set_blocking 5 true].
Proof.
  intros w. split.
  - destruct (tcp_socket_accept_mode_switches w 100 example_socket
                example_listener example_address 0 101
                (run_world (tcp_socket_accept 100 0) w)) as [Hcount _].
    + repeat split; simpl; try reflexivity; try lia; discriminate.
    + reflexivity.
    + vm_compute. reflexivity.
    + exact Hcount.
  - destruct (tcp_socket_accept_mode_switches w 100 example_socket
                example_listener example_address 250 101
                (run_world (tcp_socket_accept 100 250) w)) as (_ & Horder & _).
    + repeat split; simpl; try reflexivity; try lia; discriminate.
    + reflexivity.
    + vm_compute. reflexivity.
    + exact Horder.
Defined.

(** X12: an accept that returns never closes a descriptor and never sets a
    socket option: the accepted descriptor is left with the system's
    defaults, and when no base slot is free for it, it is left open although
    null is returned. *)
Theorem tcp_socket_accept_never_closes (w : world) (sock : Z) (s : socket_t)
    (b : socket_base_t) (a : network_address_t) (timeoutms : Z) (r : Z)
    (w' : world) :
  listening sock w s b a →
  heap w !! NULL = None →
  tcp_socket_accept sock timeoutms w = inr (r, w') →
  count_calls is_close (new_calls w w') = 0%nat ∧
  count_calls is_setsockopt (new_calls w w') = 0%nat.
Proof.
  intros Hlistening Hnull Hrun.
  destruct (tcp_socket_accept_new_calls w sock s b a timeoutms r w'
              Hlistening Hnull Hrun) as (rest & Hnew & Hrest).
  rewrite Hnew. clear Hnew Hrun.
  unfold accept_calls, accept_wait_calls.
  destruct Hrest as [-> | [-> | [d ->]]];
    split_conditionals; done.
Qed.

Lemma tcp_socket_accept_never_closes_witness :
  let w := example_world_full env_peer_waiting in
  let w' := run_world (tcp_socket_accept 100 0) w in
  tcp_socket_accept 100 0 w = inr (NULL, w') ∧
  sys_accept 5 16 ∈ new_calls w w' ∧
  count_calls is_close (new_calls w w') = 0%nat.
Proof.
  intros w w'.
  destruct (tcp_socket_accept_never_closes w 100 example_socket
              example_listener example_address 0 NULL w') as [Hclose _].
  - repeat split; simpl; try reflexivity; try lia; discriminate.
  - reflexivity.
  - vm_compute. reflexivity.
  - split; [vm_compute; reflexivity|].
    split; [vm_compute; apply list_elem_of_here | exact Hclose].
Defined.


(* ===================================================================== *)
(** ** The outcome of an accept *)
(* ===================================================================== *)





(** C1: the input on which the code departs from the claim.  The socket is
    listening, has a base slot and a peer is waiting, so the hypotheses of the
    claim hold; the allocator has no memory for the socket object, which is a
    failure of the accept.  The call does not return null: no result is
    returned at all, because [tcp_socket_allocate] lets
    [tcp_socket_initialize] write through the null pointer (the defect of
    C10).  Here with a timeout, so after the mode switches. *)
Theorem tcp_socket_accept_allocation_failure :
  let w := example_world example_listener env_no_memory in
  listening 100 w example_socket example_listener example_address ∧
  heap w !! NULL = None ∧
  tcp_socket_accept 100 250 w = inl InvalidPointer ∧
  (∀ p w', tcp_socket_accept 100 250 w ≠ inr (p, w')).
Proof.
  intros w.
  assert (Hrun : tcp_socket_accept 100 250 w = inl InvalidPointer)
    by (vm_compute; reflexivity).
  split; [repeat split; simpl; try done; lia|].
  split; [done|]. split; [done|].
  intros p w'. rewrite Hrun. discriminate.
Qed.

End TcpProofs.

(* ===================================================================== *)
(** * Properties of the event bus *)
(* ===================================================================== *)

Module EventProofs.
Import Event.

(** Initialise, post one event, finalise. *)
Example network_event_example :
  let st1 := (network_event_initialize example_state).2 in
  let st2 := default st1 (network_event_post NETWORKEVENT_ACCEPT 7 st1) in
  network_event_stream st1 = 1 ∧
  events <$> streams st2 !! network_event_stream st2
    = Some [{| id := NETWORKEVENT_ACCEPT; flags := 0; object := 7;
               payload := 0; size := 0 |}] ∧
  network_event_stream (network_event_finalize st2) = 0 ∧
  streams (network_event_finalize st2) = ∅.
Proof. vm_compute. done. Qed.

Lemma next_stream_fresh (st : state) :
  let p := fresh ({[NULL]} ∪ dom (streams st)) in
  p ≠ NULL ∧ streams st !! p = None.
Proof.
  intros p. pose proof (is_fresh ({[NULL]} ∪ dom (streams st))) as Hfresh.
  fold p in Hfresh. split.
  - intros Heq. apply Hfresh. rewrite Heq. set_solver.
  - apply not_elem_of_dom. set_solver.
Qed.

(** C7: [network_event_initialize] always returns 0.  When no stream is
    allocated it allocates one, empty and of the configured size, and makes
    [_network_events] point to it; when one is allocated it changes nothing,
    so a second call changes nothing.  [network_event_finalize] deallocates
    the stream and nulls the pointer: [network_event_stream] then returns
    null. *)
Theorem network_event_lifecycle (st : state) :
  let st1 := (network_event_initialize st).2 in
  let st2 := network_event_finalize st in
  (network_event_initialize st).1 = 0 ∧
  (_network_events st = NULL →
     network_event_stream st1 ≠ NULL ∧
     streams st !! network_event_stream st1 = None ∧
     streams st1 !! network_event_stream st1
       = Some {| capacity := event_stream_size st; events := [] |} ∧
     (∀ q, q ≠ network_event_stream st1 → streams st1 !! q = streams st !! q)) ∧
  (_network_events st ≠ NULL → st1 = st) ∧
  network_event_initialize st1 = (0, st1) ∧
  network_event_stream st2 = NULL ∧
  (_network_events st ≠ NULL → streams st2 !! _network_events st = None) ∧
  (∀ q, q ≠ _network_events st → streams st2 !! q = streams st !! q) ∧
  event_stream_size st2 = event_stream_size st.
Proof.
  intros st1 st2.
  destruct (next_stream_fresh st) as [Hnz Hfresh].
  assert (Hnew : _network_events st = NULL →
                 _network_events st1 = fresh ({[NULL]} ∪ dom (streams st)) ∧
                 streams st1 = <[_network_events st1 :=
                                   {| capacity := event_stream_size st;
                                      events := [] |}]> (streams st)).
  { intros Hnone. subst st1. unfold network_event_initialize.
    rewrite Hnone. done. }
  assert (Hold : _network_events st ≠ NULL → st1 = st).
  { intros Hsome. subst st1. unfold network_event_initialize.
    apply Z.eqb_neq in Hsome. by rewrite Hsome. }
  split.
  { unfold network_event_initialize.
    destruct (_network_events st =? NULL); done. }
  split.
  { intros Hnone. destruct (Hnew Hnone) as [Hp Hstreams].
    unfold network_event_stream. rewrite Hstreams, Hp.
    split; [done|]. split; [done|].
    split; [by rewrite lookup_insert_eq|].
    intros q Hq. by rewrite lookup_insert_ne. }
  split; [done|].
  split.
  { assert (Hst1 : _network_events st1 ≠ NULL).
    { destruct (decide (_network_events st = NULL)) as [Hnone|Hsome].
      - destruct (Hnew Hnone) as [-> _]. done.
      - by rewrite (Hold Hsome). }
    unfold network_event_initialize.
    apply Z.eqb_neq in Hst1. by rewrite Hst1. }
  subst st2. unfold network_event_finalize, network_event_stream.
  split; [done|].
  destruct (Z.eqb_spec (_network_events st) NULL) as [Hnone|Hsome]; simpl.
  - done.
  - split; [by intros _; rewrite lookup_delete_eq|].
    split; [|done]. intros q Hq. by rewrite lookup_delete_ne.
Qed.

(** C8: with the event stream allocated, [network_event_post id h] appends
    one record to it, the record carries [id], and [network_event_socket]
    gives back [h] for it; the records already in the stream and the other
    streams are untouched. *)
Theorem network_event_post_socket_roundtrip (st : state)
    (i : network_event_id) (h : Z) (s : event_stream_t) :
  streams st !! network_event_stream st = Some s →
  ∃ st' e,
    network_event_post i h st = Some st' ∧
    network_event_stream st' = network_event_stream st ∧
    streams st' !! network_event_stream st'
      = Some {| capacity := capacity s; events := events s ++ [e] |} ∧
    id e = i ∧
    network_event_socket e = h ∧
    (∀ q, q ≠ network_event_stream st → streams st' !! q = streams st !! q).
Proof.
  intros Hs. unfold network_event_stream in *.
  unfold network_event_post, event_post. rewrite Hs. simpl.
  eexists _, _. split; [done|]. simpl.
  split; [done|]. split; [by rewrite lookup_insert_eq|].
  split; [done|]. split; [done|].
  intros q Hq. by rewrite lookup_insert_ne.
Qed.

Lemma network_event_post_socket_roundtrip_witness :
  let st := (network_event_initialize example_state).2 in
  ∃ st' e,
    network_event_post NETWORKEVENT_HANGUP 42 st = Some st' ∧
    streams st' !! network_event_stream st'
      = Some {| capacity := 4096; events := [e] |} ∧
    id e = NETWORKEVENT_HANGUP ∧
    network_event_socket e = 42.
Proof.
  intros st.
  destruct (network_event_post_socket_roundtrip st NETWORKEVENT_HANGUP 42
              {| capacity := 4096; events := [] |})
    as (st' & e & Hpost & _ & Hstream & Hid & Hsock & _).
  - vm_compute. reflexivity.
  - exists st', e. split; [exact Hpost|]. split; [exact Hstream|].
    split; [exact Hid | exact Hsock].
Defined.


(* ===================================================================== *)
(** ** Further properties of event.c *)
(* ===================================================================== *)

(** X13: [network_event_finalize] on a bus that was never initialised
    changes nothing, and finalising twice is finalising once.  After a
    finalize, [network_event_initialize] sets up a new, empty stream of the
    configured size: the events posted before are gone with the old
    stream. *)
Theorem network_event_finalize_idempotent (st : state) :
  (_network_events st = NULL → network_event_finalize st = st) ∧
  network_event_finalize (network_event_finalize st)
    = network_event_finalize st ∧
  (let st' := (network_event_initialize (network_event_finalize st)).2 in
   network_event_stream st' ≠ NULL ∧
   streams st' !! network_event_stream st'
     = Some {| capacity := event_stream_size st; events := [] |} ∧
   (_network_events st ≠ NULL →
    ∀ s, streams st' !! _network_events st = Some s → events s = [])).
Proof.
  split; [|split].
  - intros Hnull. unfold network_event_finalize. rewrite Hnull. simpl.
    destruct st. simpl in *. by subst.
  - unfold network_event_finalize. simpl.
    by destruct (_network_events st =? NULL).
  - intros st'.
    set (st0 := network_event_finalize st) in *.
    assert (Hnull0 : _network_events st0 = NULL) by done.
    destruct (next_stream_fresh st0) as [Hnz Hfresh].
    assert (Hst' : st' = set_network_events
                           (fresh ({[NULL]} ∪ dom (streams st0)))
                           (set_streams
                              (<[fresh ({[NULL]} ∪ dom (streams st0)) :=
                                   {| capacity := event_stream_size st;
                                      events := [] |}]> (streams st0)) st0)).
    { subst st'. unfold network_event_initialize. rewrite Hnull0. simpl.
      subst st0. unfold network_event_finalize.
      by destruct (_network_events st =? NULL). }
    rewrite Hst'. unfold network_event_stream. simpl.
    split; [done|]. split; [by rewrite lookup_insert_eq|].
    intros Hsome s.
    rewrite lookup_insert. case_decide as Hdec.
    { by intros [= <-]. }
    subst st0. unfold network_event_finalize.
    apply Z.eqb_neq in Hsome. rewrite Hsome. simpl.
    by rewrite lookup_delete_eq.
Qed.

Lemma post_all_run (l : list (network_event_id * Z)) (st : state)
    (s : event_stream_t) :
  streams st !! _network_events st = Some s →
  network_event_post_all l st =
    Some (set_streams
            (<[_network_events st :=
                 {| capacity := capacity s;
                    events := events s ++
                      map (λ x, network_event x.1 x.2) l |}]> (streams st))
            st).
Proof.
  revert st s. induction l as [| [i h] l IH]; intros st s Hs; simpl.
  - rewrite app_nil_r. f_equal. destruct st, s. unfold set_streams. simpl in *.
    f_equal. by rewrite insert_id.
  - unfold network_event_post at 1, event_post. rewrite Hs. simpl.
    erewrite IH; [|simpl; apply lookup_insert_eq].
    f_equal. unfold set_streams. simpl. f_equal.
    rewrite insert_insert_eq. by rewrite <- app_assoc.
Qed.

(** X14: events posted one after the other are appended in that order, after
    the events already pending; each record gives back its socket through
    [network_event_socket]; the stream pointer, the other streams and the
    configuration are untouched, and a further [network_event_initialize]
    keeps the pending events. *)
Theorem network_event_post_all_fifo (l : list (network_event_id * Z))
    (st : state) (s : event_stream_t) :
  network_event_stream st ≠ NULL →
  streams st !! network_event_stream st = Some s →
  ∃ st' new,
    network_event_post_all l st = Some st' ∧
    network_event_stream st' = network_event_stream st ∧
    streams st' !! network_event_stream st'
      = Some {| capacity := capacity s; events := events s ++ new |} ∧
    map id new = map fst l ∧
    map network_event_socket new = map snd l ∧
    (∀ q, q ≠ network_event_stream st → streams st' !! q = streams st !! q) ∧
    event_stream_size st' = event_stream_size st ∧
    network_event_initialize st' = (0, st').
Proof.
  unfold network_event_stream. intros Hnz Hs.
  eexists _, (map (λ x, network_event x.1 x.2) l).
  split; [by apply post_all_run|]. simpl.
  split; [done|]. split; [by rewrite lookup_insert_eq|].
  split; [by rewrite map_map|]. split; [by rewrite map_map|].
  split; [intros q Hq; by rewrite lookup_insert_ne|].
  split; [done|].
  unfold network_event_initialize. simpl.
  apply Z.eqb_neq in Hnz. by rewrite Hnz.
Qed.

Lemma network_event_post_all_fifo_witness :
  let st := (network_event_initialize example_state).2 in
  ∃ st' new,
    network_event_post_all
      [(NETWORKEVENT_ACCEPT, 7); (NETWORKEVENT_DATA, 7);
       (NETWORKEVENT_HANGUP, 9)] st = Some st' ∧
    streams st' !! network_event_stream st'
      = Some {| capacity := 4096; events := new |} ∧
    map network_event_socket new = [7; 7; 9].
Proof.
  intros st.
  destruct (network_event_post_all_fifo
              [(NETWORKEVENT_ACCEPT, 7); (NETWORKEVENT_DATA, 7);
               (NETWORKEVENT_HANGUP, 9)] st
              {| capacity := 4096; events := [] |})
    as (st' & new & Hrun & _ & Hstream & _ & Hsock & _).
  - vm_compute. discriminate.
  - vm_compute. reflexivity.
  - exists st', new. split; [exact Hrun|]. split; [exact Hstream | exact Hsock].
Defined.

End EventProofs.
